(** * Retention-curve models of [models.py]: SBG and BDW

    A shallow embedding of the module [models.py] (classes [LTVModel],
    [SBGModel], [BDWModel]) and the properties of its likelihood, fitting and
    preprocessing code.

    Conventions of the embedding.
    - Python floats and NumPy float64 values are idealised as real numbers
      ([R]); [np.log], [np.exp] and [**] are [ln], [exp] and [Rpower], which
      agree with them on positive arguments.  Rounding is not modelled there:
      what is proved of these definitions is proved of the program where it
      does not depend on rounding (which value is returned or which exception
      raised, lengths, the shape of a sum), and of exact arithmetic otherwise.
    - The module [F64] holds the binary64 version of the SBG probabilities,
      on primitive floats, where a property is decided by rounding.
    - [/] on real numbers is total; the statements on the SBG probabilities
      take [alpha > 0] and [beta > 0], where no divisor of the code is zero.
    - Python integers ([periods], [t], list indices) are [Z].
    - A Python exception is a value [Raise e] of the type [exc]; statements
      are sequenced with the bind of that monad, in the order in which Python
      evaluates them.
    - [scipy.optimize.minimize] and [np.random.rand] are collaborators of the
      module, not part of it: they are variables of the section that holds
      the fitting code.  Each theorem on [fit] speaks of one call, in which
      [np.random.rand] is drawn at most once.
    - [scipy.special.gammaln] is the logarithm of the Gamma function, defined
      here by Gauss's limit. *)

From Stdlib Require Import Reals Lra Lia ZArith List String Psatz ClassicalEpsilon.
From Stdlib Require Import QArith.
From Stdlib Require PrimFloat Uint63 FloatOps SpecFloat.
From stdpp Require Import base gmap strings list.

#[local] Open Scope Z_scope.
#[local] Open Scope R_scope.

(** ** Exceptions *)

Inductive error : Type :=
| IndexError
| ValueError
| TypeError
| ZeroDivisionError
| Exception (args : list string).

Inductive exc (A : Type) : Type :=
| Ok (a : A)
| Raise (e : error).
Arguments Ok {A} a.
Arguments Raise {A} e.

#[global] Instance exc_ret : MRet exc := fun A a => Ok a.
#[global] Instance exc_bind : MBind exc := fun A B f m =>
  match m with
  | Ok a => f a
  | Raise e => Raise e
  end.

(** [mapM_exc f l] is the list comprehension [[f(i) for i in l]]. *)
Fixpoint mapM_exc {A B : Type} (f : A -> exc B) (l : list A) : exc (list B) :=
  match l with
  | [] => Ok []
  | a :: l' => b ← f a; bs ← mapM_exc f l'; Ok (b :: bs)
  end.

(** [foldM_exc body acc l] is the loop [for i in l: acc = body(acc, i)]. *)
Fixpoint foldM_exc {A S : Type} (body : S -> A -> exc S) (acc : S) (l : list A)
  : exc S :=
  match l with
  | [] => Ok acc
  | a :: l' => acc' ← body acc a; foldM_exc body acc' l'
  end.

(** ** Python lists *)

Definition len {A : Type} (l : list A) : Z := Z.of_nat (length l).

(** [l[i]], with Python's negative indices. *)
Definition getitem {A : Type} (l : list A) (i : Z) : exc A :=
  let j := if (i <? 0)%Z then (len l + i)%Z else i in
  if (j <? 0)%Z then Raise IndexError
  else match l !! Z.to_nat j with
       | Some a => Ok a
       | None => Raise IndexError
       end.

(** [range(a, b)]. *)
Definition range (a b : Z) : list Z :=
  map (fun k => (a + Z.of_nat k)%Z) (seq 0 (Z.to_nat (b - a))).

(** [enumerate(l)]. *)
Definition enumerate {A : Type} (l : list A) : list (Z * A) :=
  combine (range 0 (len l)) l.

(** The builtin [sum]: a left fold that starts from [0]. *)
Definition sum (l : list R) : R := fold_left Rplus l 0.

(** [l[1:]]. *)
Definition slice_from_1 {A : Type} (l : list A) : list A := drop 1 l.

(** Comparisons of floats as booleans. *)
Definition Rleb (x y : R) : bool := if Rle_dec x y then true else false.
Definition Rltb (x y : R) : bool := if Rlt_dec x y then true else false.
Definition Reqb (x y : R) : bool := if Req_dec_T x y then true else false.

(** [(np.array(params) <= 0).any()]. *)
Definition any_nonpositive (params : list R) : bool :=
  existsb (fun x => Rleb x 0) params.

(** [np.isclose(a, b)] with its default tolerances [rtol=1e-05] and
    [atol=1e-08]: [|a - b| <= atol + rtol * |b|]. *)
Definition isclose1 (a b : R) : bool :=
  Rleb (Rabs (a - b)) (1e-8 + 1e-5 * Rabs b).

(** Elementwise [np.isclose] of two one-dimensional arrays, with NumPy's
    broadcasting of an array of length one; other length mismatches raise. *)
Definition isclose (a b : list R) : exc (list bool) :=
  if (length a =? length b)%nat then Ok (zip_with isclose1 a b)
  else match a, b with
       | [a0], _ => Ok (map (isclose1 a0) b)
       | _, [b0] => Ok (map (fun ai => isclose1 ai b0) a)
       | _, _ => Raise ValueError
       end.

(** [arr.any()]. *)
Definition any (l : list bool) : bool := existsb (fun b => b) l.

(** Tuple unpacking [alpha, beta = params] and [alpha, beta, c = params]. *)
Definition unpack2 (params : list R) : exc (R * R) :=
  match params with
  | [a; b] => Ok (a, b)
  | _ => Raise ValueError
  end.

Definition unpack3 (params : list R) : exc (R * R * R) :=
  match params with
  | [a; b; c] => Ok (a, b, c)
  | _ => Raise ValueError
  end.

(** ** The log-gamma function

    [scipy.special.gammaln] on positive arguments is [ln (Gamma x)], which is
    the limit of [x ln n - ln x - sum_{k=1..n} (ln (x + k) - ln k)]. *)

Fixpoint gauss_sum (x : R) (n : nat) : R :=
  match n with
  | O => 0
  | S m => gauss_sum x m + (ln (x + INR n) - ln (INR n))
  end.

Definition gauss_lgamma (x : R) (n : nat) : R :=
  x * ln (INR (S n)) - ln x - gauss_sum x (S n).

Definition gammaln (x : R) : R :=
  epsilon (inhabits 0) (fun l => Un_cv (gauss_lgamma x) l).

(** ** class LTVModel *)

(** An instance of the class: the attributes set by [__init__] and the two
    abstract methods. *)
Record LTVModel : Type := {
  optimization_method : string;
  initial_params : option (list R);
  param_names : list string;
  bounds : list (R * R);
  survivor : Z -> list R -> option (list R) -> exc R;
  generate_probabilities : Z -> list R -> exc (list R)
}.

(** [predicted_survival], for a given [survivor] method. *)
Definition predicted_survival_of
  (surv : Z -> list R -> option (list R) -> exc R) (periods : Z)
  (params : list R) : exc (list R) :=
  mapM_exc (fun i => surv i params None) (range 0 periods).

Definition predicted_survival (self : LTVModel) : Z -> list R -> exc (list R) :=
  predicted_survival_of (survivor self).

Definition survival_rates (data : list R) : exc (list R) :=
  d0 ← getitem data 0;
  rest ← mapM_exc (fun i => a ← getitem data (i - 1);
                            b ← getitem data i;
                            Ok (a - b))
                  (range 1 (len data));
  Ok ([1 - d0] ++ rest).

Definition log_likelihood (self : LTVModel) (params data : list R)
  (survivors : option (list R)) : exc R :=
  if any_nonpositive params then Ok (-1000)
  else
    survivors ← match survivors with
                | None => survival_rates data
                | Some s => Ok s
                end;
    probabilities ← generate_probabilities self (len data) params;
    final_survivor_likelihood ← survivor self (len data - 1) params None;
    terms ← mapM_exc (fun '(t, s) => p ← getitem probabilities t;
                                     Ok (s * ln p))
                     (enumerate survivors);
    d_last ← getitem data (-1);
    Ok (sum terms + d_last * ln final_survivor_likelihood).

Definition log_likelihood_multi_cohort (self : LTVModel) (params : list R)
  (data : list (list R)) : exc R :=
  if any_nonpositive params then Ok (-1000)
  else
    d0 ← getitem data 0;
    probabilities ← generate_probabilities self (len d0) params;
    let cohorts := len data in
    foldM_exc
      (fun total '(i, cohort) =>
         terms ← mapM_exc
                   (fun j => cj ← getitem cohort j;
                             cj1 ← getitem cohort (j + 1);
                             p ← getitem probabilities j;
                             Ok ((cj - cj1) * ln p))
                   (range 0 (len cohort - 1));
         let total := total + sum terms in
         c_last ← getitem cohort (-1);
         s ← survivor self (cohorts - i - 1) params None;
         Ok (total + c_last * ln s))
      0 (enumerate data).

(** The argument of [fit] and [preprocess_data]: a flat sequence of numbers
    or a sequence of sequences. *)
Inductive Data : Type :=
| Flat (d : list R)
| Nested (d : list (list R)).

(** The body of [preprocess_data] after the test for a nested argument. *)
Definition preprocess_flat (data : list R) : exc Data :=
  d0 ← getitem data 0;
  if Rltb 1 d0 then Ok (Flat (slice_from_1 (map (fun v => v / d0) data)))
  else if Reqb d0 1 then Ok (Flat (slice_from_1 data))
  else Ok (Flat data).

Definition preprocess_data (data : Data) : exc Data :=
  match data with
  | Flat d => preprocess_flat d
  | Nested d =>
      _ ← getitem d 0;
      if (len d =? 1)%Z then d0 ← getitem d 0; preprocess_flat d0
      else Ok (Nested d)
  end.

(** [hasattr(data[0], "__iter__")]. *)
Definition first_is_iterable (data : Data) : exc bool :=
  match data with
  | Flat d => _ ← getitem d 0; Ok false
  | Nested d => _ ← getitem d 0; Ok true
  end.

(** What [scipy.optimize.minimize] returns: the fields the module reads. *)
Record OptimizeResult : Type := {
  res_x : list R;
  res_status : Z;
  res_message : string;
  res_fun : R
}.

(** The values of the dictionary that [fit] returns. *)
Inductive value : Type :=
| VFloat (v : R)
| VList (l : list R).

(** [{name: value for name, value in zip(names, xs)}]: later pairs win. *)
Definition dict_of_zip (names : list string) (xs : list R) : gmap string value :=
  fold_left (fun d '(name, v) => <[name := VFloat v]> d) (combine names xs) ∅.

Section Fitting.

(** [scipy.optimize.minimize(func, x0, bounds=..., method=...)]. *)
Variable minimize :
  (list R -> exc R) -> list R -> list (R * R) -> string -> exc OptimizeResult.

(** [np.random.rand(n)]. *)
Variable random_rand : nat -> list R.

(** The objective handed to the minimizer: [func] of [optimize].  A flat
    series has no cohorts to take the length of, and a cohort set has no
    numbers to subtract from [1]: [len(data[0])] and [1 - data[0]] raise
    [TypeError] there. *)
Definition objective (self : LTVModel) (data : Data) (is_multi_cohort : bool)
  : exc (list R -> exc R) :=
  if is_multi_cohort then
    match data with
    | Nested d =>
        Ok (fun x => v ← log_likelihood_multi_cohort self x d; Ok (- v))
    | Flat d =>
        Ok (fun x => v ← (if any_nonpositive x then Ok (-1000)
                          else _ ← getitem d 0; Raise TypeError);
                     Ok (- v))
    end
  else
    match data with
    | Flat d =>
        survivors ← survival_rates d;
        Ok (fun x => v ← log_likelihood self x d (Some survivors); Ok (- v))
    | Nested d => _ ← getitem d 0; Raise TypeError
    end.

(** [self.initial_params or np.random.rand(len(self.param_names))]. *)
Definition initial_guess (self : LTVModel) : list R :=
  match initial_params self with
  | Some (v :: l) => v :: l
  | _ => random_rand (length (param_names self))
  end.

Definition bounds_failure : error :=
  Exception ["Optimization Failed: Found parameters are inappropriate."%string].

Definition optimize (self : LTVModel) (data : Data) (is_multi_cohort : bool)
  : exc OptimizeResult :=
  func ← objective self data is_multi_cohort;
  res ← minimize func (initial_guess self) (bounds self)
                 (optimization_method self);
  lo ← isclose (res_x res) (map fst (bounds self));
  if any lo then Raise bounds_failure
  else
    hi ← isclose (res_x res) (map snd (bounds self));
    if any hi then Raise bounds_failure
    else Ok res.

Definition status_failure (res : OptimizeResult) : error :=
  Exception ["Optimization Failed:"%string; res_message res].

Definition fit (self : LTVModel) (data : Data) (periods : Z)
  : exc (gmap string value) :=
  data ← preprocess_data data;
  is_multi_cohort ← first_is_iterable data;
  res ← optimize self data is_multi_cohort;
  if negb (res_status res =? 0)%Z then Raise (status_failure res)
  else
    let result_dict := dict_of_zip (param_names self) (res_x res) in
    curve ← predicted_survival self periods (res_x res);
    Ok (<["loss"%string := VFloat (res_fun res)]>
          (<["retention_curve"%string := VList ([1] ++ curve)]> result_dict)).

End Fitting.

(** ** class SBGModel *)

Definition SBG_generate_probabilities (periods : Z) (params : list R)
  : exc (list R) :=
  '(alpha, beta) ← unpack2 params;
  foldM_exc
    (fun p (t : Z) => prev ← getitem p (t - 1);
                Ok (p ++ [(beta + IZR t - 1) / (alpha + beta + IZR t) * prev]))
    [alpha / (alpha + beta)] (range 1 periods).

Definition SBG_survivor (t : Z) (params : list R)
  (probabilities : option (list R)) : exc R :=
  probabilities ← match probabilities with
                  | Some (p :: l) => Ok (p :: l)
                  | _ => SBG_generate_probabilities (t + 1) params
                  end;
  p0 ← getitem probabilities 0;
  foldM_exc (fun s (i : Z) => p ← getitem probabilities i; Ok (s - p))
            (1 - p0) (range 1 (t + 1)).

Definition SBGModel (method : string) (init : option (list R)) : LTVModel := {|
  optimization_method := method;
  initial_params := init;
  param_names := ["alpha"%string; "beta"%string];
  bounds := [(0.0001, 10000); (0.0001, 10000)];
  survivor := SBG_survivor;
  generate_probabilities := SBG_generate_probabilities
|}.

(** ** SBGModel.generate_probabilities in binary64

    The same method on IEEE 754 binary64 numbers, as CPython evaluates it on
    Python floats: every [+], [-], [*] and [/] rounds to nearest, ties to
    even, and [/] raises [ZeroDivisionError] on a zero divisor. *)

Module F64.

Import PrimFloat.
#[local] Open Scope float_scope.

(** [float(t)] for a Python integer [0 <= t < 2^63], as the arithmetic of a
    float with an integer converts it. *)
Definition float_of_int (t : Z) : float := of_uint63 (Uint63.of_Z t).

(** [x / y] on floats. *)
Definition truediv (x y : float) : exc float :=
  if (y =? 0)%float then Raise ZeroDivisionError else Ok (x / y).

Definition unpack2 (params : list float) : exc (float * float) :=
  match params with
  | [a; b] => Ok (a, b)
  | _ => Raise ValueError
  end.

Definition SBG_generate_probabilities (periods : Z) (params : list float)
  : exc (list float) :=
  '(alpha, beta) ← unpack2 params;
  p0 ← truediv alpha (alpha + beta);
  foldM_exc
    (fun p (t : Z) =>
       q ← truediv (beta + float_of_int t - 1) (alpha + beta + float_of_int t);
       prev ← getitem p (t - 1)%Z;
       Ok (p ++ [q * prev]))
    [p0] (range 1 periods).

(** The sum of a list of floats accumulated from left to right, starting
    from [0], as a loop [s = s + x] or a cumulative sum computes it. *)
Definition sum (l : list float) : float := fold_left add l 0.



End F64.

(** ** class BDWModel *)

Definition BDW_survivor (t : Z) (params : list R)
  (probabilities : option (list R)) : exc R :=
  '(alpha, beta, c) ← unpack3 params;
  Ok (exp (gammaln (alpha + beta) + gammaln (beta + Rpower (IZR (t + 1)) c)
           - gammaln beta - gammaln (alpha + beta + Rpower (IZR (t + 1)) c))).

Definition BDW_generate_probabilities (periods : Z) (params : list R)
  : exc (list R) :=
  survivor_rates ← predicted_survival_of BDW_survivor periods params;
  survival_rates survivor_rates.

Definition BDWModel (method : string) (init : option (list R)) : LTVModel := {|
  optimization_method := method;
  initial_params := init;
  param_names := ["alpha"%string; "beta"%string; "c"%string];
  bounds := [(0.0001, 10000); (0.0001, 10000); (0.0001, 3)];
  survivor := BDW_survivor;
  generate_probabilities := BDW_generate_probabilities
|}.

(** A parameter vector inside the declared bounds of a model. *)
Definition in_bounds (self : LTVModel) (params : list R) : Prop :=
  Forall2 (fun x b => fst b <= x <= snd b) params (bounds self).

(** ** Quantities used to state the properties *)

(** [item l t] is [l[t]] for an index [0 <= t < len(l)]. *)
Definition item (l : list R) (t : Z) : R := nth (Z.to_nat t) l 0.

(** [Sigma lo n f] is the sum of [f t] for [lo <= t < lo + n]. *)
Fixpoint Sigma (lo : Z) (n : nat) (f : Z -> R) : R :=
  match n with
  | O => 0
  | S m => Sigma lo m f + f (lo + Z.of_nat m)%Z
  end.

(** The churn probability of period [t] under the SBG model, as a recurrence
    on the period, and the probability of being retained after period [t]. *)
Fixpoint sbg_p (alpha beta : R) (t : nat) : R :=
  match t with
  | O => alpha / (alpha + beta)
  | S k => (beta + IZR (Z.of_nat t) - 1) / (alpha + beta + IZR (Z.of_nat t))
           * sbg_p alpha beta k
  end.

Fixpoint sbg_S (alpha beta : R) (t : nat) : R :=
  match t with
  | O => 1 - sbg_p alpha beta 0
  | S k => sbg_S alpha beta k - sbg_p alpha beta t
  end.

(** The closed form of the BDW survivor function at period [t]. *)
Definition bdw_S (alpha beta c : R) (t : Z) : R :=
  exp (gammaln (alpha + beta) + gammaln (beta + Rpower (IZR (t + 1)) c)
       - gammaln beta - gammaln (alpha + beta + Rpower (IZR (t + 1)) c)).

(** The log-likelihood of preprocessed data: single-cohort for a flat
    series, multi-cohort for a cohort set. *)
Definition log_likelihood_of (self : LTVModel) (data : Data) (x : list R)
  : exc R :=
  match data with
  | Flat d => log_likelihood self x d None
  | Nested d => log_likelihood_multi_cohort self x d
  end.

(** The contract of the minimizer about the objective value: the reported
    [fun] is the objective at the reported [x]. *)
Definition reports_objective_value
  (minimize : (list R -> exc R) -> list R -> list (R * R) -> string
              -> exc OptimizeResult) : Prop :=
  forall func x0 bs method res,
    minimize func x0 bs method = Ok res -> func (res_x res) = Ok (res_fun res).

(** The contribution of one cohort to the multi-cohort log-likelihood: the
    observed churn of each period but the last, and the censored tail. *)
Definition cohort_term (probabilities cohort : list R) (tail_survivor : R) : R :=
  Sigma 0 (length cohort - 1)
        (fun j => (item cohort j - item cohort (j + 1)) * ln (item probabilities j))
  + item cohort (len cohort - 1) * ln tail_survivor.

(** [a] is close to [b] in the sense of [np.isclose]. *)
Definition close (a b : R) : Prop := Rabs (a - b) <= 1e-8 + 1e-5 * Rabs b.

(** A component of [x] is close to its own lower or upper bound. *)
Definition near_bound (x : list R) (bs : list (R * R)) : Prop :=
  exists (i : nat) (xi : R) (b : R * R),
    x !! i = Some xi /\ bs !! i = Some b /\ (close xi (fst b) \/ close xi (snd b)).

(** [x] is a non-increasing sequence. *)
Definition non_increasing (l : list R) : Prop :=
  forall i : nat, (S i < length l)%nat -> nth (S i) l 0 <= nth i l 0.

(** ** Instances used to exercise the properties *)

(** A model whose two methods always raise. *)
Definition raising_model : LTVModel := {|
  optimization_method := "nelder-mead";
  initial_params := None;
  param_names := [];
  bounds := [];
  survivor := fun _ _ _ => Raise (Exception []);
  generate_probabilities := fun _ _ => Raise (Exception [])
|}.

(** A minimizer that evaluates the objective at the initial guess and
    reports that point as a success. *)
Definition accept_initial_guess (func : list R -> exc R) (x0 : list R)
  (bs : list (R * R)) (method : string) : exc OptimizeResult :=
  v ← func x0;
  Ok {| res_x := x0; res_status := 0;
        res_message := "Optimization terminated successfully.";
        res_fun := v |}.

(** A minimizer that evaluates the objective at the initial guess and
    reports that it ran out of iterations there. *)
Definition stalled_minimizer (func : list R -> exc R) (x0 : list R)
  (bs : list (R * R)) (method : string) : exc OptimizeResult :=
  v ← func x0;
  Ok {| res_x := x0; res_status := 2;
        res_message := "Maximum number of iterations has been exceeded.";
        res_fun := v |}.

(** A random source that always draws [0.5]. *)
Definition constant_rand (n : nat) : list R := repeat 0.5 n.

(** The series of the docstring of [fit], cut to two periods, its first
    differences, and its SBG log-likelihood at [alpha = beta = 1]. *)
Definition example_data : list R := [0.8; 0.65].

Definition example_rates : list R :=
  (1 - item example_data 0)
    :: map (fun i => item example_data (i - 1) - item example_data i)
           (range 1 (len example_data)).

Definition example_log_likelihood : R :=
  Sigma 0 2 (fun t => item example_rates t
                      * ln (item (map (sbg_p 1 1) (seq 0 2)) t))
  + item example_data 1 * ln (sbg_S 1 1 1).

Definition example_model : LTVModel := SBGModel "nelder-mead" (Some [1; 1]).

Definition example_result (status : Z) (message : string) : OptimizeResult :=
  {| res_x := [1; 1]; res_status := status; res_message := message;
     res_fun := - example_log_likelihood |}.

(** * Properties *)

(** ** The exception monad and Python lists *)

Lemma bind_Ok {A B : Type} (a : A) (f : A -> exc B) : (Ok a ≫= f) = f a.
Proof. reflexivity. Qed.

Lemma len_nonneg {A : Type} (l : list A) : (0 <= len l)%Z.
Proof. unfold len. lia. Qed.

Lemma len_cons {A : Type} (a : A) (l : list A) : len (a :: l) = (len l + 1)%Z.
Proof. unfold len. simpl length. lia. Qed.

Lemma len_pos {A : Type} (l : list A) : l <> [] -> (0 < len l)%Z.
Proof.
  destruct l as [|a l]; [easy|]. intros _. rewrite len_cons.
  pose proof (len_nonneg l). lia.
Qed.

Lemma getitem_nonneg {A : Type} (l : list A) (i : Z) (a : A) :
  (0 <= i)%Z -> l !! Z.to_nat i = Some a -> getitem l i = Ok a.
Proof.
  intros Hi Hl. unfold getitem.
  destruct (Z.ltb_spec i 0); [lia|].
  destruct (Z.ltb_spec i 0); [lia|].
  now rewrite Hl.
Qed.

Lemma getitem_nth (l : list R) (i : Z) :
  (0 <= i < len l)%Z -> getitem l i = Ok (item l i).
Proof.
  intros Hi. apply getitem_nonneg; [lia|].
  unfold item, len in *.
  destruct (lookup_lt_is_Some_2 l (Z.to_nat i)) as [x Hx]; [lia|].
  rewrite Hx. f_equal. symmetry. now apply nth_lookup_Some.
Qed.

Lemma getitem_out_of_range {A : Type} (l : list A) (i : Z) :
  (len l <= i)%Z -> getitem l i = Raise IndexError.
Proof.
  intros Hi. unfold getitem. pose proof (len_nonneg l).
  destruct (Z.ltb_spec i 0); [lia|].
  destruct (Z.ltb_spec i 0); [lia|].
  rewrite (proj2 (lookup_ge_None l (Z.to_nat i))); [easy|].
  unfold len in Hi. lia.
Qed.

Lemma getitem_0_cons {A : Type} (a : A) (l : list A) : getitem (a :: l) 0 = Ok a.
Proof. reflexivity. Qed.

Lemma getitem_last (l : list R) :
  l <> [] -> getitem l (-1) = Ok (item l (len l - 1)).
Proof.
  intros Hl.
  pose proof (len_pos l Hl).
  transitivity (getitem l (len l - 1)); [|apply getitem_nth; lia].
  unfold getitem. change (-1 <? 0)%Z with true. cbv iota.
  replace (len l + -1)%Z with (len l - 1)%Z by lia.
  destruct (Z.ltb_spec (len l - 1) 0); [lia|].
  destruct (Z.ltb_spec (len l - 1) 0); [lia|reflexivity].
Qed.

Lemma range_empty (a b : Z) : (b <= a)%Z -> range a b = [].
Proof.
  intros H. unfold range. now replace (Z.to_nat (b - a)) with O by lia.
Qed.

Lemma range_cons (a b : Z) : (a < b)%Z -> range a b = a :: range (a + 1) b.
Proof.
  intros H. unfold range.
  replace (Z.to_nat (b - a)) with (S (Z.to_nat (b - (a + 1)))) by lia.
  simpl. f_equal; [lia|].
  rewrite <- seq_shift, map_map. apply map_ext. intros k. lia.
Qed.

Lemma range_snoc (a b : Z) : (a <= b)%Z -> range a (b + 1) = range a b ++ [b].
Proof.
  intros H. unfold range.
  replace (Z.to_nat (b + 1 - a)) with (S (Z.to_nat (b - a))) by lia.
  rewrite seq_S, map_app. simpl. do 2 f_equal. lia.
Qed.

Lemma length_range (a b : Z) : length (range a b) = Z.to_nat (b - a).
Proof. unfold range. now rewrite length_map, length_seq. Qed.

Lemma sum_from (l : list R) (x : R) : fold_left Rplus l x = x + sum l.
Proof.
  unfold sum. revert x. induction l as [|a l IH]; intros x; simpl.
  - lra.
  - rewrite IH, (IH (0 + a)). lra.
Qed.

Lemma sum_nil : sum [] = 0.
Proof. reflexivity. Qed.

Lemma sum_cons (a : R) (l : list R) : sum (a :: l) = a + sum l.
Proof. unfold sum at 1. simpl. rewrite sum_from. lra. Qed.

Lemma sum_app (l k : list R) : sum (l ++ k) = sum l + sum k.
Proof.
  induction l as [|a l IH]; simpl.
  - rewrite sum_nil. lra.
  - rewrite !sum_cons, IH. lra.
Qed.

Lemma sum_map_seq (f : Z -> R) (lo : Z) (n : nat) :
  sum (map (fun k => f (lo + Z.of_nat k)%Z) (seq 0 n)) = Sigma lo n f.
Proof.
  induction n as [|n IH]; [reflexivity|].
  rewrite seq_S, map_app, sum_app, IH. simpl. rewrite sum_cons, sum_nil. lra.
Qed.

Lemma Sigma_ext (lo : Z) (n : nat) (f g : Z -> R) :
  (forall t, (lo <= t < lo + Z.of_nat n)%Z -> f t = g t) ->
  Sigma lo n f = Sigma lo n g.
Proof.
  induction n as [|n IH]; intros H; [reflexivity|].
  simpl. rewrite IH, H; [reflexivity|lia|]. intros t Ht. apply H. lia.
Qed.

Lemma mapM_exc_Ok {A B : Type} (f : A -> exc B) (g : A -> B) (l : list A) :
  (forall a, In a l -> f a = Ok (g a)) -> mapM_exc f l = Ok (map g l).
Proof.
  induction l as [|a l IH]; intros H; [reflexivity|].
  simpl. rewrite (H a) by now left. rewrite bind_Ok, IH; [reflexivity|].
  intros b Hb. apply H. now right.
Qed.

Lemma mapM_exc_length {A B : Type} (f : A -> exc B) (l : list A) (r : list B) :
  mapM_exc f l = Ok r -> length r = length l.
Proof.
  revert r. induction l as [|a l IH]; intros r; simpl.
  - now intros [= <-].
  - destruct (f a); [|discriminate]. rewrite bind_Ok.
    destruct (mapM_exc f l); [|discriminate]. rewrite bind_Ok.
    intros [= <-]. simpl. f_equal. now apply IH.
Qed.

Lemma in_range (a b i : Z) : In i (range a b) <-> (a <= i < b)%Z.
Proof.
  unfold range. rewrite in_map_iff. split.
  - intros (k & <- & Hk). apply in_seq in Hk. lia.
  - intros Hi. exists (Z.to_nat (i - a)). split; [lia|]. apply in_seq. lia.
Qed.

Lemma foldM_exc_app {A S : Type} (body : S -> A -> exc S) (acc : S)
  (l k : list A) :
  foldM_exc body acc (l ++ k) = (foldM_exc body acc l ≫= fun s => foldM_exc body s k).
Proof.
  revert acc. induction l as [|a l IH]; intros acc; [reflexivity|].
  simpl. destruct (body acc a); [|reflexivity]. rewrite !bind_Ok. apply IH.
Qed.

Lemma nth_map_range (f : Z -> R) (a b : Z) (k : nat) :
  (k < Z.to_nat (b - a))%nat ->
  nth k (map f (range a b)) 0 = f (a + Z.of_nat k)%Z.
Proof.
  intros Hk. unfold range. rewrite map_map.
  rewrite (nth_indep _ 0 (f (a + Z.of_nat 0)%Z))
    by (rewrite length_map, length_seq; lia).
  rewrite (map_nth (fun k => f (a + Z.of_nat k)%Z) (seq 0 _) 0%nat k).
  now rewrite seq_nth by lia.
Qed.

Lemma combine_range {A : Type} (d : A) (a : Z) (l : list A) :
  combine (range a (a + len l)) l =
  map (fun k => ((a + Z.of_nat k)%Z, nth k l d)) (seq 0 (length l)).
Proof.
  revert a. induction l as [|x l IH]; intros a;
    [now rewrite range_empty by (unfold len; simpl; lia)|].
  pose proof (len_nonneg l).
  rewrite range_cons by (rewrite len_cons; lia).
  replace (a + len (x :: l))%Z with (a + 1 + len l)%Z by (rewrite len_cons; lia).
  simpl. rewrite IH. f_equal; [f_equal; lia|].
  rewrite <- seq_shift, map_map. apply map_ext. intros k. f_equal. lia.
Qed.

Lemma enumerate_nth {A : Type} (d : A) (l : list A) :
  enumerate l = map (fun k => (Z.of_nat k, nth k l d)) (seq 0 (length l)).
Proof.
  unfold enumerate. change (len l) with (0 + len l)%Z.
  now rewrite (combine_range d).
Qed.

Lemma enumerate_seq (l : list R) :
  enumerate l =
  map (fun k => (Z.of_nat k, item l (Z.of_nat k))) (seq 0 (length l)).
Proof.
  rewrite (enumerate_nth 0). apply map_ext. intros k.
  unfold item. now rewrite Nat2Z.id.
Qed.

Lemma any_nonpositive_false (params : list R) :
  Forall (fun x => 0 < x) params -> any_nonpositive params = false.
Proof.
  unfold any_nonpositive. induction 1 as [|x l Hx _ IH]; [reflexivity|].
  simpl. rewrite IH. unfold Rleb. destruct (Rle_dec x 0); [lra|reflexivity].
Qed.

Lemma any_nonpositive_true (params : list R) :
  Exists (fun x => x <= 0) params -> any_nonpositive params = true.
Proof.
  unfold any_nonpositive. induction 1 as [x l Hx|x l _ IH]; simpl.
  - unfold Rleb. destruct (Rle_dec x 0); [reflexivity|lra].
  - rewrite IH. apply orb_true_r.
Qed.

(** ** [survival_rates] *)

(** On a non-empty series [survival_rates] returns the first differences. *)
Lemma survival_rates_Ok (data : list R) :
  data <> [] ->
  survival_rates data =
  Ok ((1 - item data 0)
        :: map (fun i => item data (i - 1) - item data i) (range 1 (len data))).
Proof.
  intros Hd. unfold survival_rates.
  pose proof (len_pos data Hd) as Hlen.
  rewrite getitem_nth by lia. rewrite bind_Ok.
  rewrite (mapM_exc_Ok _ (fun i => item data (i - 1) - item data i)); [reflexivity|].
  intros i Hi%in_range. now rewrite !getitem_nth by lia.
Qed.

Lemma survival_rates_length (data rates : list R) :
  survival_rates data = Ok rates -> length rates = length data.
Proof.
  destruct data as [|d data]; [discriminate|].
  rewrite survival_rates_Ok by easy. intros [= <-].
  simpl. rewrite length_map, length_range. unfold len. simpl length. lia.
Qed.

Lemma survival_rates_item (data rates : list R) (t : Z) :
  survival_rates data = Ok rates -> (0 <= t < len data)%Z ->
  item rates t = if (t =? 0)%Z then 1 - item data 0
                 else item data (t - 1) - item data t.
Proof.
  destruct data as [|d data]; [discriminate|].
  rewrite survival_rates_Ok by easy. intros [= <-] Ht.
  destruct (Z.eqb_spec t 0) as [->|Hne]; [reflexivity|].
  unfold item at 1. replace (Z.to_nat t) with (S (Z.to_nat (t - 1))) by lia.
  simpl nth. rewrite nth_map_range by lia. f_equal; f_equal; lia.
Qed.

(** ** The SBG model: the loops and their recurrences *)

Lemma nth_map_seq (f : nat -> R) (n k : nat) :
  (k < n)%nat -> nth k (map f (seq 0 n)) 0 = f k.
Proof.
  intros Hk. rewrite (nth_indep _ 0 (f 0%nat)) by (rewrite length_map, length_seq; lia).
  now rewrite map_nth, seq_nth by lia.
Qed.

Lemma item_map_seq (f : nat -> R) (n : nat) (t : Z) :
  (0 <= t < Z.of_nat n)%Z -> item (map f (seq 0 n)) t = f (Z.to_nat t).
Proof. intros Ht. unfold item. apply nth_map_seq. lia. Qed.

Lemma len_map_seq (f : nat -> R) (n : nat) : len (map f (seq 0 n)) = Z.of_nat n.
Proof. unfold len. now rewrite length_map, length_seq. Qed.

(** The loop of [generate_probabilities] appends one term of the recurrence
    per iteration. *)
Lemma SBG_loop (alpha beta : R) (n : nat) :
  foldM_exc
    (fun p (t : Z) => prev ← getitem p (t - 1);
       Ok (p ++ [(beta + IZR t - 1) / (alpha + beta + IZR t) * prev]))
    [alpha / (alpha + beta)] (range 1 (Z.of_nat (S n)))
  = Ok (map (sbg_p alpha beta) (seq 0 (S n))).
Proof.
  induction n as [|n IH]; [reflexivity|].
  replace (Z.of_nat (S (S n))) with (Z.of_nat (S n) + 1)%Z by lia.
  rewrite range_snoc, foldM_exc_app, IH, bind_Ok by lia.
  cbn [foldM_exc].
  rewrite getitem_nth by (rewrite len_map_seq; lia).
  rewrite item_map_seq by lia. rewrite !bind_Ok.
  replace (Z.to_nat (Z.of_nat (S n) - 1)) with n by lia.
  now rewrite (seq_S (S n)), map_app.
Qed.

Lemma SBG_generate_probabilities_Ok (alpha beta : R) (n : nat) :
  SBG_generate_probabilities (Z.of_nat (S n)) [alpha; beta] =
  Ok (map (sbg_p alpha beta) (seq 0 (S n))).
Proof.
  unfold SBG_generate_probabilities. cbn [unpack2]. rewrite bind_Ok.
  apply SBG_loop.
Qed.

(** For [periods <= 1] the loop does not run. *)
Lemma SBG_generate_probabilities_short (alpha beta : R) (periods : Z) :
  (periods <= 1)%Z ->
  SBG_generate_probabilities periods [alpha; beta] = Ok [alpha / (alpha + beta)].
Proof.
  intros H. unfold SBG_generate_probabilities. cbn [unpack2].
  now rewrite bind_Ok, range_empty.
Qed.

(** The loop of [survivor] subtracts the churn probabilities one by one. *)
Lemma SBG_survivor_loop (probabilities : list R) (s0 : R) (n : nat) :
  (Z.of_nat n < len probabilities)%Z ->
  foldM_exc (fun s (i : Z) => p ← getitem probabilities i; Ok (s - p))
            s0 (range 1 (Z.of_nat (S n)))
  = Ok (s0 - Sigma 1 n (item probabilities)).
Proof.
  intros Hn. induction n as [|n IH]; [simpl; f_equal; lra|].
  replace (Z.of_nat (S (S n))) with (Z.of_nat (S n) + 1)%Z by lia.
  rewrite range_snoc, foldM_exc_app, IH, bind_Ok by lia.
  cbn [foldM_exc]. rewrite getitem_nth by lia. rewrite !bind_Ok.
  f_equal. cbn [Sigma]. replace (1 + Z.of_nat n)%Z with (Z.of_nat (S n)) by lia. lra.
Qed.

Lemma sbg_S_Sigma (alpha beta : R) (n : nat) :
  sbg_S alpha beta n =
  1 - sbg_p alpha beta 0 - Sigma 1 n (fun t => sbg_p alpha beta (Z.to_nat t)).
Proof.
  induction n as [|n IH]; [simpl; lra|].
  cbn [sbg_S Sigma]. rewrite IH.
  replace (Z.to_nat (1 + Z.of_nat n)) with (S n) by lia. lra.
Qed.

Lemma SBG_survivor_Ok (alpha beta : R) (n : nat) :
  SBG_survivor (Z.of_nat n) [alpha; beta] None = Ok (sbg_S alpha beta n).
Proof.
  unfold SBG_survivor.
  replace (Z.of_nat n + 1)%Z with (Z.of_nat (S n)) by lia.
  rewrite SBG_generate_probabilities_Ok, bind_Ok.
  rewrite getitem_nth by (rewrite len_map_seq; lia).
  rewrite bind_Ok, SBG_survivor_loop by (rewrite len_map_seq; lia).
  f_equal. rewrite sbg_S_Sigma, item_map_seq by lia. f_equal.
  apply Sigma_ext. intros t Ht. now rewrite item_map_seq by lia.
Qed.

(** ** C1: the single-cohort log-likelihood *)

(** The value of [log_likelihood] when nothing raises, with the survivors
    computed from the data or handed in precomputed. *)
Lemma log_likelihood_sum (self : LTVModel)
  (params data probabilities rates : list R) (s : R)
  (survivors : option (list R)) :
  Forall (fun x => 0 < x) params ->
  data <> [] ->
  generate_probabilities self (len data) params = Ok probabilities ->
  (len data <= len probabilities)%Z ->
  survivor self (len data - 1) params None = Ok s ->
  survival_rates data = Ok rates ->
  survivors = None \/ survivors = Some rates ->
  log_likelihood self params data survivors =
  Ok (Sigma 0 (length data) (fun t => item rates t * ln (item probabilities t))
      + item data (len data - 1) * ln s).
Proof.
  intros Hpos Hd Hgp Hlen Hs Hr Hsurv.
  pose proof (survival_rates_length _ _ Hr) as Hrl.
  unfold log_likelihood. rewrite any_nonpositive_false by easy.
  replace (match survivors with None => survival_rates data | Some s0 => Ok s0 end)
    with (Ok rates) by (destruct Hsurv as [-> | ->]; easy).
  rewrite bind_Ok, Hgp, bind_Ok, Hs, bind_Ok.
  rewrite (mapM_exc_Ok _ (fun '(t, r) => r * ln (item probabilities t))).
  - rewrite bind_Ok, getitem_last, bind_Ok by easy.
    do 2 f_equal. rewrite enumerate_seq, map_map, Hrl.
    apply (sum_map_seq (fun t => item rates t * ln (item probabilities t)) 0).
  - intros [t r] Hin. apply in_combine_l, in_range in Hin.
    unfold len in Hin, Hlen. rewrite getitem_nth by (unfold len; lia).
    reflexivity.
Qed.

(** C1.  For a model, a parameter vector with strictly positive components and
    a non-empty series [data], when [generate_probabilities(len(data), params)]
    returns [probabilities] (covering the periods of [data]) and
    [survivor(len(data) - 1, params)] returns [s], [log_likelihood(params,
    data)] without precomputed survivors returns the sum over
    [0 <= t < len(data)] of [survival_rates(data)[t] * log(probabilities[t])]
    plus [data[len(data) - 1] * log(s)]. *)
Theorem log_likelihood_formula (self : LTVModel)
  (params data probabilities : list R) (s : R) :
  Forall (fun x => 0 < x) params ->
  data <> [] ->
  generate_probabilities self (len data) params = Ok probabilities ->
  (len data <= len probabilities)%Z ->
  survivor self (len data - 1) params None = Ok s ->
  exists rates,
    survival_rates data = Ok rates /\
    log_likelihood self params data None =
    Ok (Sigma 0 (length data) (fun t => item rates t * ln (item probabilities t))
        + item data (len data - 1) * ln s).
Proof.
  intros Hpos Hd Hgp Hlen Hs.
  destruct (survival_rates data) as [rates|] eqn:Hr;
    [|now rewrite survival_rates_Ok in Hr].
  exists rates. split; [reflexivity|].
  apply log_likelihood_sum; auto.
Qed.

Lemma log_likelihood_formula_witness :
  exists rates,
    survival_rates [0.8; 0.65] = Ok rates /\
    log_likelihood (SBGModel "nelder-mead" None) [1; 1] [0.8; 0.65] None =
    Ok (Sigma 0 2 (fun t => item rates t
                            * ln (item (map (sbg_p 1 1) (seq 0 2)) t))
        + item [0.8; 0.65] 1 * ln (sbg_S 1 1 1)).
Proof.
  apply (log_likelihood_formula (SBGModel "nelder-mead" None) [1; 1]
           [0.8; 0.65] (map (sbg_p 1 1) (seq 0 2)) (sbg_S 1 1 1)).
  - repeat constructor; lra.
  - discriminate.
  - exact (SBG_generate_probabilities_Ok 1 1 1).
  - reflexivity.
  - exact (SBG_survivor_Ok 1 1 1).
Defined.

(** ** C9: the guard of the likelihoods *)

(** C9.  For every model (whatever its [survivor] and
    [generate_probabilities] do, raising included) and every data, when a
    component of the parameter vector is [<= 0] both [log_likelihood] (with
    or without precomputed survivors) and [log_likelihood_multi_cohort]
    return [-1000]. *)
Theorem likelihood_guard (self : LTVModel) (params data : list R)
  (survivors : option (list R)) (cohorts : list (list R)) :
  Exists (fun x => x <= 0) params ->
  log_likelihood self params data survivors = Ok (-1000) /\
  log_likelihood_multi_cohort self params cohorts = Ok (-1000).
Proof.
  intros H. unfold log_likelihood, log_likelihood_multi_cohort.
  now rewrite any_nonpositive_true.
Qed.

Lemma likelihood_guard_witness :
  log_likelihood raising_model [1; 0] [] None = Ok (-1000) /\
  log_likelihood_multi_cohort raising_model [1; 0] [] = Ok (-1000).
Proof.
  apply (likelihood_guard raising_model [1; 0] [] None []).
  apply Exists_cons_tl, Exists_cons_hd. lra.
Defined.

(** ** C7: preprocessing of a flat series *)

Lemma Rltb_true (x y : R) : x < y -> Rltb x y = true.
Proof. intros H. unfold Rltb. destruct (Rlt_dec x y); [reflexivity|lra]. Qed.

Lemma Rltb_false (x y : R) : y <= x -> Rltb x y = false.
Proof. intros H. unfold Rltb. destruct (Rlt_dec x y); [lra|reflexivity]. Qed.

Lemma Rleb_true (x y : R) : x <= y -> Rleb x y = true.
Proof. intros H. unfold Rleb. destruct (Rle_dec x y); [reflexivity|lra]. Qed.

Lemma Rleb_false (x y : R) : y < x -> Rleb x y = false.
Proof. intros H. unfold Rleb. destruct (Rle_dec x y); [lra|reflexivity]. Qed.

Lemma Reqb_true (x y : R) : x = y -> Reqb x y = true.
Proof. intros H. unfold Reqb. destruct (Req_dec_T x y); [reflexivity|easy]. Qed.

Lemma Reqb_false (x y : R) : x <> y -> Reqb x y = false.
Proof. intros H. unfold Reqb. destruct (Req_dec_T x y); [easy|reflexivity]. Qed.

(** C7.  On a flat series with first element [x] and tail [xs],
    [preprocess_data] returns the tail divided by [x] when [x > 1], the tail
    when [x = 1], and the series itself otherwise; the counts
    [[733, 379, 282, 225]] give [[379/733, 282/733, 225/733]]. *)
Theorem preprocess_data_flat (x : R) (xs : list R) :
  (1 < x ->
   preprocess_data (Flat (x :: xs)) = Ok (Flat (map (fun v => v / x) xs))) /\
  (x = 1 -> preprocess_data (Flat (x :: xs)) = Ok (Flat xs)) /\
  (x < 1 -> preprocess_data (Flat (x :: xs)) = Ok (Flat (x :: xs))) /\
  preprocess_data (Flat [733; 379; 282; 225]) =
  Ok (Flat [379 / 733; 282 / 733; 225 / 733]).
Proof.
  unfold preprocess_data, preprocess_flat. rewrite !getitem_0_cons, !bind_Ok.
  repeat split.
  - intros H. now rewrite Rltb_true.
  - intros H. now rewrite Rltb_false, Reqb_true by lra.
  - intros H. now rewrite Rltb_false, Reqb_false by lra.
  - now rewrite Rltb_true by lra.
Qed.

Lemma preprocess_data_flat_witness :
  1 < 733 /\
  preprocess_data (Flat [733; 379; 282; 225]) =
  Ok (Flat (map (fun v => v / 733) [379; 282; 225])).
Proof.
  assert (H : 1 < 733) by lra.
  split; [exact H|].
  exact (proj1 (preprocess_data_flat 733 [379; 282; 225]) H).
Defined.

(** ** C3: the SBG churn probabilities form a sub-distribution *)

Lemma IZR_of_nat_nonneg (n : nat) : 0 <= IZR (Z.of_nat n).
Proof. apply IZR_le. lia. Qed.

Lemma IZR_of_nat_S (n : nat) : IZR (Z.of_nat (S n)) = IZR (Z.of_nat n) + 1.
Proof. rewrite Nat2Z.inj_succ, succ_IZR. reflexivity. Qed.

Lemma sbg_p_pos (alpha beta : R) (t : nat) :
  0 < alpha -> 0 < beta -> 0 < sbg_p alpha beta t.
Proof.
  intros Ha Hb. induction t as [|t IH].
  - simpl. apply Rdiv_lt_0_compat; lra.
  - cbn [sbg_p]. rewrite IZR_of_nat_S. pose proof (IZR_of_nat_nonneg t).
    apply Rmult_lt_0_compat; [|exact IH].
    apply Rdiv_lt_0_compat; lra.
Qed.





Lemma firstn_seq_min (k a n : nat) : firstn k (seq a n) = seq a (Nat.min k n).
Proof.
  revert a n. induction k as [|k IH]; intros a [|n]; try reflexivity.
  simpl. now rewrite IH.
Qed.




(** ** C5: first differences of the predicted survival curve *)

Lemma SBG_predicted_survival_Ok (alpha beta : R) (periods : Z) :
  predicted_survival_of SBG_survivor periods [alpha; beta] =
  Ok (map (sbg_S alpha beta) (seq 0 (Z.to_nat periods))).
Proof.
  unfold predicted_survival_of.
  rewrite (mapM_exc_Ok _ (fun i => sbg_S alpha beta (Z.to_nat i))).
  - f_equal. unfold range. rewrite map_map, Z.sub_0_r. apply map_ext.
    intros k. f_equal. lia.
  - intros i Hi%in_range.
    rewrite <- (Z2Nat.id i) at 1 by lia. apply SBG_survivor_Ok.
Qed.

Lemma BDW_survivor_Ok (alpha beta c : R) (t : Z) (probabilities : option (list R)) :
  BDW_survivor t [alpha; beta; c] probabilities = Ok (bdw_S alpha beta c t).
Proof. reflexivity. Qed.

Lemma BDW_predicted_survival_Ok (alpha beta c : R) (periods : Z) :
  predicted_survival_of BDW_survivor periods [alpha; beta; c] =
  Ok (map (bdw_S alpha beta c) (range 0 periods)).
Proof.
  unfold predicted_survival_of. apply mapM_exc_Ok. intros i _.
  apply BDW_survivor_Ok.
Qed.

Lemma in_bounds_SBG (method : string) (init : option (list R)) (params : list R) :
  in_bounds (SBGModel method init) params ->
  exists alpha beta,
    params = [alpha; beta] /\
    0.0001 <= alpha <= 10000 /\ 0.0001 <= beta <= 10000.
Proof.
  unfold in_bounds. cbn [bounds SBGModel]. intros H.
  apply Forall2_cons_inv_r in H as (alpha & l1 & Ha & H & ->).
  apply Forall2_cons_inv_r in H as (beta & l2 & Hb & H & ->).
  apply Forall2_nil_inv_r in H as ->. now exists alpha, beta.
Qed.

Lemma in_bounds_BDW (method : string) (init : option (list R)) (params : list R) :
  in_bounds (BDWModel method init) params ->
  exists alpha beta c,
    params = [alpha; beta; c] /\
    0.0001 <= alpha <= 10000 /\ 0.0001 <= beta <= 10000 /\ 0.0001 <= c <= 3.
Proof.
  unfold in_bounds. cbn [bounds BDWModel]. intros H.
  apply Forall2_cons_inv_r in H as (alpha & l1 & Ha & H & ->).
  apply Forall2_cons_inv_r in H as (beta & l2 & Hb & H & ->).
  apply Forall2_cons_inv_r in H as (c & l3 & Hc & H & ->).
  apply Forall2_nil_inv_r in H as ->. now exists alpha, beta, c.
Qed.

Lemma SBG_survival_rates_roundtrip (alpha beta : R) (n : nat) :
  survival_rates (map (sbg_S alpha beta) (seq 0 (S n))) =
  Ok (map (sbg_p alpha beta) (seq 0 (S n))).
Proof.
  destruct (survival_rates (map (sbg_S alpha beta) (seq 0 (S n))))
    as [rates|] eqn:Hr; [|now rewrite survival_rates_Ok in Hr].
  f_equal. pose proof (survival_rates_length _ _ Hr) as Hl.
  rewrite length_map, length_seq in Hl.
  apply (nth_ext _ _ 0 0); [now rewrite length_map, length_seq|].
  intros k Hk. rewrite nth_map_seq by lia.
  replace (nth k rates 0) with (item rates (Z.of_nat k))
    by (unfold item; now rewrite Nat2Z.id).
  rewrite (survival_rates_item _ _ _ Hr) by (rewrite len_map_seq; lia).
  destruct k as [|k].
  - cbn [Z.of_nat Z.eqb]. rewrite item_map_seq by lia. simpl. lra.
  - destruct (Z.eqb_spec (Z.of_nat (S k)) 0); [lia|].
    rewrite !item_map_seq by lia.
    replace (Z.to_nat (Z.of_nat (S k) - 1)) with k by lia.
    rewrite Nat2Z.id. cbn [sbg_S]. lra.
Qed.

(** C5.  For the SBG and the BDW model, a parameter vector inside the declared
    bounds and [n >= 1], [generate_probabilities(n, params)] returns a
    sequence, and [survival_rates(predicted_survival(n, params))] returns the
    same sequence. *)
Theorem survival_rates_of_predicted_survival (self : LTVModel)
  (method : string) (init : option (list R)) (params : list R) (n : Z) :
  self = SBGModel method init \/ self = BDWModel method init ->
  in_bounds self params ->
  (1 <= n)%Z ->
  exists p,
    generate_probabilities self n params = Ok p /\
    (curve ← predicted_survival self n params; survival_rates curve) = Ok p.
Proof.
  intros [-> | ->] Hb Hn.
  - apply in_bounds_SBG in Hb as (alpha & beta & -> & _).
    exists (map (sbg_p alpha beta) (seq 0 (Z.to_nat n))).
    unfold predicted_survival. cbn [generate_probabilities survivor SBGModel].
    rewrite SBG_predicted_survival_Ok, bind_Ok.
    replace (Z.to_nat n) with (S (Z.to_nat (n - 1))) by lia.
    rewrite SBG_survival_rates_roundtrip. split; [|reflexivity].
    replace n with (Z.of_nat (S (Z.to_nat (n - 1)))) at 1 by lia.
    apply SBG_generate_probabilities_Ok.
  - apply in_bounds_BDW in Hb as (alpha & beta & c & -> & _).
    unfold predicted_survival. cbn [generate_probabilities survivor BDWModel].
    unfold BDW_generate_probabilities.
    rewrite BDW_predicted_survival_Ok, bind_Ok.
    rewrite survival_rates_Ok; [eexists; split; reflexivity|].
    rewrite range_cons by lia. discriminate.
Qed.

Lemma survival_rates_of_predicted_survival_witness :
  exists p,
    generate_probabilities (SBGModel "nelder-mead" None) 3 [1; 2] = Ok p /\
    (curve ← predicted_survival (SBGModel "nelder-mead" None) 3 [1; 2];
     survival_rates curve) = Ok p.
Proof.
  apply (survival_rates_of_predicted_survival
           (SBGModel "nelder-mead" None) "nelder-mead" None [1; 2] 3).
  - left. reflexivity.
  - repeat constructor; simpl; lra.
  - lia.
Defined.

(** ** C2: the multi-cohort log-likelihood *)

Lemma sum_map_range (f : Z -> R) (a b : Z) :
  sum (map f (range a b)) = Sigma a (Z.to_nat (b - a)) f.
Proof. unfold range. rewrite map_map. apply sum_map_seq. Qed.

(** A loop that adds [g a] to the running total for each [a]. *)
Lemma foldM_exc_sum {A : Type} (body : R -> A -> exc R) (g : A -> R)
  (l : list A) (acc : R) :
  (forall total a, In a l -> body total a = Ok (total + g a)) ->
  foldM_exc body acc l = Ok (acc + sum (map g l)).
Proof.
  revert acc. induction l as [|a l IH]; intros acc H.
  - simpl. rewrite sum_nil. f_equal. lra.
  - cbn [foldM_exc map]. rewrite H by now left. rewrite bind_Ok, IH.
    + rewrite sum_cons. f_equal. lra.
    + intros total b Hb. apply H. now right.
Qed.

(** The value of [log_likelihood_multi_cohort] when nothing raises: the sum
    of the terms of the enumerated cohorts. *)
Lemma log_likelihood_multi_cohort_terms (self : LTVModel)
  (params : list R) (first : list R) (others : list (list R))
  (probabilities : list R) (sv : Z -> R) :
  let data := first :: others in
  Forall (fun x => 0 < x) params ->
  generate_probabilities self (len first) params = Ok probabilities ->
  Forall (fun cohort => cohort <> [] /\ (len cohort - 1 <= len probabilities)%Z)
         data ->
  (forall t, (0 <= t < len data)%Z -> survivor self t params None = Ok (sv t)) ->
  log_likelihood_multi_cohort self params data =
  Ok (sum (map (fun '(i, cohort) =>
                  cohort_term probabilities cohort (sv (len data - i - 1)%Z))
               (enumerate data))).
Proof.
  intros data Hpos Hgp Hdata Hsv.
  unfold log_likelihood_multi_cohort.
  rewrite any_nonpositive_false by easy.
  change (getitem data 0) with (Ok first).
  rewrite bind_Ok, Hgp, bind_Ok. cbv zeta.
  rewrite (foldM_exc_sum _
             (fun '(i, cohort) =>
                cohort_term probabilities cohort (sv (len data - i - 1)%Z))).
  - now rewrite Rplus_0_l.
  - intros total [i cohort] Hin.
    pose proof (in_combine_l _ _ _ _ Hin) as Hi%in_range.
    pose proof (in_combine_r _ _ _ _ Hin) as Hc.
    rewrite List.Forall_forall in Hdata.
    destruct (Hdata _ Hc) as [Hne Hlen].
    pose proof (len_pos cohort Hne).
    rewrite (mapM_exc_Ok _
               (fun j => (item cohort j - item cohort (j + 1))
                         * ln (item probabilities j))).
    + rewrite bind_Ok, getitem_last, bind_Ok, Hsv, bind_Ok by (easy || lia).
      f_equal. unfold cohort_term. rewrite sum_map_range.
      replace (Z.to_nat (len cohort - 1 - 0)) with (length cohort - 1)%nat
        by (unfold len; lia).
      lra.
    + intros j Hj%in_range. now rewrite !getitem_nth by lia.
Qed.

(** C2.  For a model, a parameter vector with strictly positive components and
    a non-empty sequence [data] of non-empty cohorts, let [probabilities] be
    what [generate_probabilities(len(data[0]), params)] returns, long enough
    for the periods but the last of every cohort (as it is when the cohorts
    come longest first), and [sv t] what [survivor(t, params)] returns for
    [0 <= t < len(data)].  Then [log_likelihood_multi_cohort(params, data)]
    returns the sum over the cohorts [i] of the sum over [0 <= j <=
    len(cohort_i) - 2] of [(cohort_i[j] - cohort_i[j+1]) *
    log(probabilities[j])] plus [cohort_i[last] * log(sv (len(data) - i - 1))];
    the one sequence [probabilities] serves every cohort, and the model's
    [generate_probabilities] enters through this value only. *)
Theorem log_likelihood_multi_cohort_formula (self : LTVModel)
  (params : list R) (first : list R) (others : list (list R))
  (probabilities : list R) (sv : Z -> R) :
  let data := first :: others in
  Forall (fun x => 0 < x) params ->
  generate_probabilities self (len first) params = Ok probabilities ->
  Forall (fun cohort => cohort <> [] /\ (len cohort - 1 <= len probabilities)%Z)
         data ->
  (forall t, (0 <= t < len data)%Z -> survivor self t params None = Ok (sv t)) ->
  log_likelihood_multi_cohort self params data =
  Ok (Sigma 0 (length data)
        (fun i => cohort_term probabilities (nth (Z.to_nat i) data [])
                              (sv (len data - i - 1)%Z))).
Proof.
  intros data Hpos Hgp Hdata Hsv.
  pose proof (log_likelihood_multi_cohort_terms self params first others
                probabilities sv Hpos Hgp Hdata Hsv) as H.
  cbv zeta in H. fold data in H. rewrite H. f_equal.
  rewrite (enumerate_nth []), map_map.
  rewrite <- (sum_map_seq _ 0). f_equal. apply map_ext. intros k.
  now rewrite Z.add_0_l, Nat2Z.id.
Qed.

Lemma log_likelihood_multi_cohort_formula_witness :
  let data := [[733; 379; 282; 225]; [519; 286; 194]; [557; 292]] in
  log_likelihood_multi_cohort (SBGModel "nelder-mead" None) [1; 1] data =
  Ok (Sigma 0 3
        (fun i => cohort_term (map (sbg_p 1 1) (seq 0 4))
                              (nth (Z.to_nat i) data [])
                              (sbg_S 1 1 (Z.to_nat (3 - i - 1))))).
Proof.
  apply (log_likelihood_multi_cohort_formula (SBGModel "nelder-mead" None)
           [1; 1] [733; 379; 282; 225] [[519; 286; 194]; [557; 292]]
           (map (sbg_p 1 1) (seq 0 4)) (fun t => sbg_S 1 1 (Z.to_nat t))).
  - repeat constructor; lra.
  - exact (SBG_generate_probabilities_Ok 1 1 3).
  - repeat constructor; try discriminate; unfold len; simpl; lia.
  - intros t Ht. cbn [survivor SBGModel].
    rewrite <- (Z2Nat.id t) at 1 by lia. apply SBG_survivor_Ok.
Defined.

(** ** The two models meet the contract of the base class

    Inside the declared bounds the two methods of the SBG and of the BDW model
    return, so that the likelihoods are defined on every non-empty series and
    on every cohort set whose first cohort is the longest. *)

Lemma in_bounds_positive (self : LTVModel) (method : string)
  (init : option (list R)) (params : list R) :
  self = SBGModel method init \/ self = BDWModel method init ->
  in_bounds self params -> Forall (fun x => 0 < x) params.
Proof.
  intros [-> | ->] Hb.
  - apply in_bounds_SBG in Hb as (alpha & beta & -> & Ha & Hb).
    repeat constructor; lra.
  - apply in_bounds_BDW in Hb as (alpha & beta & c & -> & Ha & Hb & Hc).
    repeat constructor; lra.
Qed.

Lemma generate_probabilities_contract (self : LTVModel) (method : string)
  (init : option (list R)) (params : list R) (periods : Z) :
  self = SBGModel method init \/ self = BDWModel method init ->
  in_bounds self params -> (1 <= periods)%Z ->
  exists p, generate_probabilities self periods params = Ok p /\ len p = periods.
Proof.
  intros [-> | ->] Hb Hp.
  - apply in_bounds_SBG in Hb as (alpha & beta & -> & _).
    exists (map (sbg_p alpha beta) (seq 0 (S (Z.to_nat (periods - 1))))).
    split; [|rewrite len_map_seq; lia].
    replace periods with (Z.of_nat (S (Z.to_nat (periods - 1)))) at 1 by lia.
    apply SBG_generate_probabilities_Ok.
  - apply in_bounds_BDW in Hb as (alpha & beta & c & -> & _).
    cbn [generate_probabilities BDWModel]. unfold BDW_generate_probabilities.
    rewrite BDW_predicted_survival_Ok, bind_Ok.
    destruct (survival_rates (map (bdw_S alpha beta c) (range 0 periods)))
      as [p|] eqn:Hr.
    + exists p. split; [reflexivity|]. unfold len.
      rewrite (survival_rates_length _ _ Hr), length_map, length_range. lia.
    + rewrite survival_rates_Ok in Hr; [discriminate|].
      rewrite range_cons by lia. discriminate.
Qed.

Lemma survivor_contract (self : LTVModel) (method : string)
  (init : option (list R)) (params : list R) (t : Z) :
  self = SBGModel method init \/ self = BDWModel method init ->
  in_bounds self params -> (0 <= t)%Z ->
  exists s, survivor self t params None = Ok s.
Proof.
  intros [-> | ->] Hb Ht.
  - apply in_bounds_SBG in Hb as (alpha & beta & -> & _).
    exists (sbg_S alpha beta (Z.to_nat t)). cbn [survivor SBGModel].
    rewrite <- (Z2Nat.id t) at 1 by lia. apply SBG_survivor_Ok.
  - apply in_bounds_BDW in Hb as (alpha & beta & c & -> & _).
    now exists (bdw_S alpha beta c t).
Qed.

Corollary log_likelihood_defined (self : LTVModel) (method : string)
  (init : option (list R)) (params data : list R) :
  self = SBGModel method init \/ self = BDWModel method init ->
  in_bounds self params -> data <> [] ->
  exists v, log_likelihood self params data None = Ok v.
Proof.
  intros Hself Hb Hd.
  assert (Hlen : (1 <= len data)%Z) by (pose proof (len_pos data Hd); lia).
  destruct (generate_probabilities_contract _ _ _ _ _ Hself Hb Hlen)
    as (p & Hp & Hpl).
  destruct (survivor_contract self method init params (len data - 1) Hself Hb)
    as [s Hs]; [lia|].
  eexists.
  apply (log_likelihood_sum self params data p _ s None
           (in_bounds_positive _ _ _ _ Hself Hb) Hd Hp ltac:(lia) Hs
           (survival_rates_Ok data Hd)).
  now left.
Qed.

Corollary log_likelihood_multi_cohort_defined (self : LTVModel)
  (method : string) (init : option (list R)) (params first : list R)
  (others : list (list R)) :
  self = SBGModel method init \/ self = BDWModel method init ->
  in_bounds self params ->
  Forall (fun cohort => cohort <> []) (first :: others) ->
  Forall (fun cohort => (len cohort <= len first)%Z) others ->
  exists v, log_likelihood_multi_cohort self params (first :: others) = Ok v.
Proof.
  intros Hself Hb Hne Hlong.
  assert (Hlen : (1 <= len first)%Z).
  { pose proof (len_pos first (Forall_inv Hne)). lia. }
  destruct (generate_probabilities_contract _ _ _ _ _ Hself Hb Hlen)
    as (p & Hp & Hpl).
  eexists.
  apply (log_likelihood_multi_cohort_terms self params first others p
           (fun t => match survivor self t params None with
                     | Ok s => s
                     | Raise _ => 0
                     end)).
  - eapply in_bounds_positive; eauto.
  - exact Hp.
  - constructor; [split; [now apply Forall_inv in Hne | lia]|].
    apply Forall_inv_tail in Hne.
    rewrite List.Forall_forall in *. intros c Hc.
    specialize (Hne c Hc). specialize (Hlong c Hc). split; [easy | lia].
  - intros t Ht.
    destruct (survivor_contract self method init params t Hself Hb) as [s Hs];
      [lia|].
    now rewrite Hs.
Qed.

(** ** C6: validation of the optimizer's result *)

Lemma isclose1_true (a b : R) : isclose1 a b = true <-> close a b.
Proof.
  unfold isclose1, close, Rleb.
  destruct (Rle_dec (Rabs (a - b)) (1e-8 + 1e-5 * Rabs b)); split; easy.
Qed.

Lemma any_isclose_proj (g : R * R -> R) (x : list R) (bs : list (R * R)) :
  any (zip_with isclose1 x (map g bs)) = true <->
  exists (i : nat) (xi : R) (b : R * R),
    x !! i = Some xi /\ bs !! i = Some b /\ close xi (g b).
Proof.
  revert bs. induction x as [|x0 x IH]; intros [|b0 bs]; simpl;
    try (split; [discriminate | now intros ([|i] & xi & b & H1 & H2 & _)]).
  change (any (isclose1 x0 (g b0) :: zip_with isclose1 x (map g bs)))
    with (isclose1 x0 (g b0) || any (zip_with isclose1 x (map g bs))).
  rewrite orb_true_iff, IH, isclose1_true. split.
  - intros [H | (i & xi & b & H1 & H2 & H3)].
    + now exists O, x0, b0.
    + now exists (S i), xi, b.
  - intros ([|i] & xi & b & H1 & H2 & H3); simpl in H1, H2.
    + left. congruence.
    + right. now exists i, xi, b.
Qed.

Lemma isclose_same_length (a b : list R) :
  length a = length b -> isclose a b = Ok (zip_with isclose1 a b).
Proof. intros H. unfold isclose. now rewrite H, Nat.eqb_refl. Qed.

Section FitProperties.

Variable minimize :
  (list R -> exc R) -> list R -> list (R * R) -> string -> exc OptimizeResult.
Variable random_rand : nat -> list R.

(** What [optimize] does with the result of the minimizer. *)
Lemma optimize_validation (self : LTVModel) (data : Data) (multi : bool)
  (func : list R -> exc R) (res : OptimizeResult) :
  objective self data multi = Ok func ->
  minimize func (initial_guess random_rand self) (bounds self) (optimization_method self)
    = Ok res ->
  length (res_x res) = length (bounds self) ->
  (near_bound (res_x res) (bounds self) ->
   optimize minimize random_rand self data multi = Raise bounds_failure) /\
  (~ near_bound (res_x res) (bounds self) ->
   optimize minimize random_rand self data multi = Ok res).
Proof.
  intros Hobj Hmin Hlen. unfold optimize.
  rewrite Hobj, bind_Ok, Hmin, bind_Ok.
  rewrite !isclose_same_length by now rewrite length_map.
  rewrite !bind_Ok.
  pose proof (any_isclose_proj fst (res_x res) (bounds self)) as Hlo.
  pose proof (any_isclose_proj snd (res_x res) (bounds self)) as Hhi.
  destruct (any (zip_with isclose1 (res_x res) (map fst (bounds self)))).
  - split; [reflexivity|]. intros Hn. exfalso. apply Hn.
    destruct (proj1 Hlo eq_refl) as (i & xi & b & H1 & H2 & H3).
    exists i, xi, b. auto.
  - destruct (any (zip_with isclose1 (res_x res) (map snd (bounds self)))).
    + split; [reflexivity|]. intros Hn. exfalso. apply Hn.
      destruct (proj1 Hhi eq_refl) as (i & xi & b & H1 & H2 & H3).
      exists i, xi, b. auto.
    + split; [|reflexivity].
      intros (i & xi & b & H1 & H2 & [H3 | H3]).
      * assert (false = true); [|discriminate].
        apply Hlo. now exists i, xi, b.
      * assert (false = true); [|discriminate].
        apply Hhi. now exists i, xi, b.
Qed.

(** C6.  When the call of the minimizer made by [fit(data, periods)]
    returns a result [res] (one value per bound) whose exit status is not
    [0], or one of whose components is close to its lower or upper bound,
    [fit] raises one of the two "Optimization Failed" exceptions of the
    module; it returns no result. *)
Theorem fit_raises_optimization_failure (self : LTVModel) (data data' : Data)
  (periods : Z) (multi : bool) (func : list R -> exc R)
  (res : OptimizeResult) :
  preprocess_data data = Ok data' ->
  first_is_iterable data' = Ok multi ->
  objective self data' multi = Ok func ->
  minimize func (initial_guess random_rand self) (bounds self) (optimization_method self)
    = Ok res ->
  length (res_x res) = length (bounds self) ->
  res_status res <> 0%Z \/ near_bound (res_x res) (bounds self) ->
  fit minimize random_rand self data periods = Raise bounds_failure \/
  fit minimize random_rand self data periods = Raise (status_failure res).
Proof.
  intros Hpre Hit Hobj Hmin Hlen Hfail. unfold fit.
  rewrite Hpre, bind_Ok, Hit, bind_Ok.
  destruct (optimize_validation self data' multi func res Hobj Hmin Hlen)
    as [Hnear Hfar].
  destruct (classic (near_bound (res_x res) (bounds self))) as [Hn | Hn].
  - left. now rewrite Hnear.
  - right. rewrite Hfar, bind_Ok by easy.
    destruct Hfail as [Hst | Hc]; [|easy].
    now destruct (Z.eqb_spec (res_status res) 0).
Qed.

(** ** C8 and C10: what [fit] returns *)

Lemma fit_Ok_inv (self : LTVModel) (data : Data) (periods : Z)
  (d : gmap string value) :
  fit minimize random_rand self data periods = Ok d ->
  exists data' multi res curve,
    preprocess_data data = Ok data' /\
    first_is_iterable data' = Ok multi /\
    optimize minimize random_rand self data' multi = Ok res /\
    res_status res = 0%Z /\
    predicted_survival self periods (res_x res) = Ok curve /\
    d = <["loss"%string := VFloat (res_fun res)]>
          (<["retention_curve"%string := VList (1 :: curve)]>
             (dict_of_zip (param_names self) (res_x res))).
Proof.
  unfold fit. intros H.
  destruct (preprocess_data data) as [data'|] eqn:Hpre; [|discriminate].
  rewrite bind_Ok in H.
  destruct (first_is_iterable data') as [multi|] eqn:Hit; [|discriminate].
  rewrite bind_Ok in H.
  destruct (optimize minimize random_rand self data' multi) as [res|] eqn:Hopt;
    [|discriminate].
  rewrite bind_Ok in H.
  destruct (res_status res =? 0)%Z eqn:Hst; cbn [negb] in H; [|discriminate].
  apply Z.eqb_eq in Hst.
  destruct (predicted_survival self periods (res_x res)) as [curve|] eqn:Hcurve;
    [|discriminate].
  rewrite bind_Ok in H. injection H as <-.
  exists data', multi, res, curve. repeat split; auto.
Qed.

Lemma fit_Ok_intro (self : LTVModel) (data data' : Data) (periods : Z)
  (multi : bool) (res : OptimizeResult) (curve : list R) :
  preprocess_data data = Ok data' ->
  first_is_iterable data' = Ok multi ->
  optimize minimize random_rand self data' multi = Ok res ->
  res_status res = 0%Z ->
  predicted_survival self periods (res_x res) = Ok curve ->
  fit minimize random_rand self data periods =
  Ok (<["loss"%string := VFloat (res_fun res)]>
        (<["retention_curve"%string := VList (1 :: curve)]>
           (dict_of_zip (param_names self) (res_x res)))).
Proof.
  intros Hpre Hit Hopt Hst Hcurve. unfold fit.
  now rewrite Hpre, bind_Ok, Hit, bind_Ok, Hopt, bind_Ok, Hst, Hcurve.
Qed.

Lemma optimize_Ok_inv (self : LTVModel) (data : Data) (multi : bool)
  (res : OptimizeResult) :
  optimize minimize random_rand self data multi = Ok res ->
  exists func,
    objective self data multi = Ok func /\
    minimize func (initial_guess random_rand self) (bounds self)
             (optimization_method self) = Ok res.
Proof.
  unfold optimize. intros H.
  destruct (objective self data multi) as [func|]; [|discriminate].
  exists func. split; [reflexivity|]. rewrite bind_Ok in H.
  destruct (minimize func _ _ _) as [res'|]; [|discriminate].
  rewrite bind_Ok in H.
  destruct (isclose (res_x res') (map fst (bounds self))) as [lo|];
    [|discriminate].
  rewrite bind_Ok in H. destruct (any lo); [discriminate|].
  destruct (isclose (res_x res') (map snd (bounds self))) as [hi|];
    [|discriminate].
  rewrite bind_Ok in H. destruct (any hi); [discriminate|].
  congruence.
Qed.

Lemma log_likelihood_precomputed (self : LTVModel) (x d rates : list R) :
  survival_rates d = Ok rates ->
  log_likelihood self x d (Some rates) = log_likelihood self x d None.
Proof. intros H. unfold log_likelihood. now rewrite H. Qed.

(** The objective is the negated log-likelihood of the preprocessed data. *)
Lemma objective_negates (self : LTVModel) (data : Data) (multi : bool)
  (func : list R -> exc R) (x : list R) :
  first_is_iterable data = Ok multi ->
  objective self data multi = Ok func ->
  func x = (v ← log_likelihood_of self data x; Ok (- v)).
Proof.
  destruct data as [d|d]; cbn [first_is_iterable log_likelihood_of].
  - destruct (getitem d 0); [|discriminate]. rewrite bind_Ok. intros [= <-].
    cbn [objective].
    destruct (survival_rates d) as [rates|] eqn:Hr; [|discriminate].
    rewrite bind_Ok. intros [= <-].
    now rewrite (log_likelihood_precomputed _ _ _ _ Hr).
  - destruct (getitem d 0); [|discriminate]. rewrite bind_Ok. intros [= <-].
    cbn [objective]. now intros [= <-].
Qed.

Lemma predicted_survival_of_first
  (surv : Z -> list R -> option (list R) -> exc R) (periods : Z)
  (params curve : list R) :
  (1 <= periods)%Z ->
  predicted_survival_of surv periods params = Ok curve ->
  exists s, surv 0%Z params None = Ok s.
Proof.
  intros Hp. unfold predicted_survival_of. rewrite range_cons by lia.
  cbn [mapM_exc]. destruct (surv 0%Z params None) as [s|]; [|discriminate].
  now exists s.
Qed.

Lemma predicted_survival_of_len
  (surv : Z -> list R -> option (list R) -> exc R) (periods : Z)
  (params curve : list R) :
  (0 <= periods)%Z ->
  predicted_survival_of surv periods params = Ok curve ->
  len curve = periods.
Proof.
  intros Hp H%mapM_exc_length. unfold len. rewrite H, length_range. lia.
Qed.

Lemma SBG_survivor_Ok_inv (t : Z) (params : list R) (s : R) :
  SBG_survivor t params None = Ok s -> exists alpha beta, params = [alpha; beta].
Proof.
  unfold SBG_survivor, SBG_generate_probabilities.
  destruct params as [|a [|b [|c l]]]; try discriminate. now exists a, b.
Qed.

Lemma BDW_survivor_Ok_inv (t : Z) (params : list R) (s : R) :
  BDW_survivor t params None = Ok s ->
  exists alpha beta c, params = [alpha; beta; c].
Proof.
  unfold BDW_survivor.
  destruct params as [|a [|b [|c [|e l]]]]; try discriminate. now exists a, b, c.
Qed.

(** C8.  Let the minimizer report, with the point it returns, the value of
    the objective at that point.  For the SBG and the BDW model and
    [periods >= 1], when [fit(data, periods)] returns a dictionary [d], the
    minimizer returned a result [res] such that [d] maps each declared
    parameter name to the component of [res.x] at its position, maps
    ["retention_curve"] to [1] followed by [predicted_survival(periods,
    res.x)], a list of [periods + 1] values, and maps ["loss"] to the
    negated log-likelihood of the preprocessed data at [res.x]. *)
Theorem fit_result (self : LTVModel) (method : string)
  (init : option (list R)) (data : Data) (periods : Z)
  (d : gmap string value) :
  reports_objective_value minimize ->
  self = SBGModel method init \/ self = BDWModel method init ->
  (1 <= periods)%Z ->
  fit minimize random_rand self data periods = Ok d ->
  exists data' multi res curve v,
    preprocess_data data = Ok data' /\
    optimize minimize random_rand self data' multi = Ok res /\
    Forall2 (fun name xi => d !! name = Some (VFloat xi))
            (param_names self) (res_x res) /\
    predicted_survival self periods (res_x res) = Ok curve /\
    d !! "retention_curve"%string = Some (VList (1 :: curve)) /\
    len (1 :: curve) = (periods + 1)%Z /\
    log_likelihood_of self data' (res_x res) = Ok v /\
    d !! "loss"%string = Some (VFloat (- v)).
Proof.
  intros Hmin Hself Hp Hfit.
  apply fit_Ok_inv in Hfit
    as (data' & multi & res & curve & Hpre & Hit & Hopt & Hst & Hcurve & ->).
  destruct (optimize_Ok_inv _ _ _ _ Hopt) as (func & Hobj & Hres).
  apply Hmin in Hres. rewrite (objective_negates _ _ _ _ _ Hit Hobj) in Hres.
  destruct (log_likelihood_of self data' (res_x res)) as [v|] eqn:Hv;
    [|discriminate].
  rewrite bind_Ok in Hres. injection Hres as Hfun.
  exists data', multi, res, curve, v.
  assert (Hp0 : (0 <= periods)%Z) by lia.
  pose proof (predicted_survival_of_len _ _ _ _ Hp0 Hcurve) as Hlen.
  destruct (predicted_survival_of_first _ _ _ _ Hp Hcurve) as [s Hs].
  repeat split; try assumption.
  - destruct Hself as [-> | ->]; cbn [survivor SBGModel BDWModel] in Hs.
    + apply SBG_survivor_Ok_inv in Hs as (alpha & beta & ->).
      repeat constructor.
    + apply BDW_survivor_Ok_inv in Hs as (alpha & beta & c & ->).
      repeat constructor.
  - now rewrite lookup_insert_ne, lookup_insert_eq.
  - rewrite len_cons. lia.
  - now rewrite lookup_insert_eq, Hfun.
Qed.

Lemma predicted_survival_of_nonpositive
  (surv : Z -> list R -> option (list R) -> exc R) (periods : Z)
  (params : list R) :
  (periods <= 0)%Z -> predicted_survival_of surv periods params = Ok [].
Proof. intros H. unfold predicted_survival_of. now rewrite range_empty. Qed.

(** C10, as the code has it.  On empty data ([[]] or [[[]]]) [fit] raises
    [IndexError] whatever the minimizer is, that is before it is called.
    [fit] checks neither [periods] nor the initial vector: a non-empty
    initial vector is the minimizer's initial guess whatever its length,
    and for [periods <= 0], when the optimization of the preprocessed data
    succeeds with status [0], [fit] returns a dictionary whose
    ["retention_curve"] is [[1]]. *)
Theorem fit_input_validation (self : LTVModel) (data : Data) (periods : Z) :
  fit minimize random_rand self (Flat []) periods = Raise IndexError /\
  fit minimize random_rand self (Nested []) periods = Raise IndexError /\
  fit minimize random_rand self (Nested [[]]) periods = Raise IndexError /\
  (forall v l, initial_params self = Some (v :: l) ->
               initial_guess random_rand self = v :: l) /\
  (forall data' multi res,
      (periods <= 0)%Z ->
      preprocess_data data = Ok data' ->
      first_is_iterable data' = Ok multi ->
      optimize minimize random_rand self data' multi = Ok res ->
      res_status res = 0%Z ->
      fit minimize random_rand self data periods =
      Ok (<["loss"%string := VFloat (res_fun res)]>
            (<["retention_curve"%string := VList [1]]>
               (dict_of_zip (param_names self) (res_x res))))).
Proof.
  repeat split; try reflexivity.
  - intros v l H. unfold initial_guess. now rewrite H.
  - intros data' multi res Hp Hpre Hit Hopt Hst.
    apply (fit_Ok_intro self data data' periods multi res []); auto.
    now apply predicted_survival_of_nonpositive.
Qed.

End FitProperties.

(** ** The example fit *)

Lemma isclose1_false (a b : R) :
  1e-8 + 1e-5 * Rabs b < Rabs (a - b) -> isclose1 a b = false.
Proof. intros H. unfold isclose1. now apply Rleb_false. Qed.

Lemma example_rates_Ok : survival_rates example_data = Ok example_rates.
Proof. now apply survival_rates_Ok. Qed.

Lemma example_objective (survivors : option (list R)) :
  survivors = None \/ survivors = Some example_rates ->
  log_likelihood example_model [1; 1] example_data survivors =
  Ok example_log_likelihood.
Proof.
  intros H.
  apply (log_likelihood_sum example_model [1; 1] example_data
           (map (sbg_p 1 1) (seq 0 2)) example_rates (sbg_S 1 1 1)).
  - repeat constructor; lra.
  - discriminate.
  - exact (SBG_generate_probabilities_Ok 1 1 1).
  - reflexivity.
  - exact (SBG_survivor_Ok 1 1 1).
  - exact example_rates_Ok.
  - exact H.
Qed.

Lemma example_preprocess : preprocess_data (Flat example_data) = Ok (Flat example_data).
Proof.
  unfold preprocess_data, preprocess_flat, example_data.
  rewrite getitem_0_cons, bind_Ok.
  now rewrite Rltb_false, Reqb_false by lra.
Qed.

Lemma example_far_from_bounds :
  isclose [1; 1] [0.0001; 0.0001] = Ok [false; false] /\
  isclose [1; 1] [10000; 10000] = Ok [false; false].
Proof.
  assert (H1 : isclose1 1 0.0001 = false).
  { apply isclose1_false. rewrite (Rabs_pos_eq 0.0001), (Rabs_pos_eq (1 - 0.0001)); lra. }
  assert (H2 : isclose1 1 10000 = false).
  { apply isclose1_false. rewrite (Rabs_pos_eq 10000) by lra.
    rewrite (Rabs_left (1 - 10000)); lra. }
  unfold isclose. cbn. now rewrite H1, H2.
Qed.

Lemma example_optimize :
  optimize accept_initial_guess constant_rand example_model
           (Flat example_data) false =
  Ok (example_result 0 "Optimization terminated successfully.").
Proof.
  unfold optimize. cbn [objective]. rewrite example_rates_Ok, !bind_Ok.
  unfold accept_initial_guess.
  change (initial_guess constant_rand example_model) with [1; 1].
  rewrite example_objective by now right. rewrite !bind_Ok.
  cbn [res_x bounds example_model SBGModel map fst snd].
  rewrite (proj1 example_far_from_bounds), bind_Ok.
  cbn [any existsb orb].
  rewrite (proj2 example_far_from_bounds), bind_Ok.
  reflexivity.
Qed.

Lemma example_curve (periods : nat) :
  predicted_survival example_model (Z.of_nat periods) [1; 1] =
  Ok (map (sbg_S 1 1) (seq 0 periods)).
Proof.
  unfold predicted_survival. cbn [survivor example_model SBGModel].
  now rewrite SBG_predicted_survival_Ok, Nat2Z.id.
Qed.

Lemma example_fit (periods : nat) :
  fit accept_initial_guess constant_rand example_model (Flat example_data)
      (Z.of_nat periods) =
  Ok (<["loss"%string := VFloat (- example_log_likelihood)]>
        (<["retention_curve"%string :=
             VList (1 :: map (sbg_S 1 1) (seq 0 periods))]>
           (dict_of_zip ["alpha"%string; "beta"%string] [1; 1]))).
Proof.
  apply (fit_Ok_intro accept_initial_guess constant_rand example_model
           (Flat example_data) (Flat example_data) (Z.of_nat periods) false
           (example_result 0 "Optimization terminated successfully.")).
  - exact example_preprocess.
  - reflexivity.
  - exact example_optimize.
  - reflexivity.
  - apply example_curve.
Qed.

Lemma accept_initial_guess_reports : reports_objective_value accept_initial_guess.
Proof.
  intros func x0 bs method res. unfold accept_initial_guess.
  destruct (func x0) as [v|] eqn:Hv; [|discriminate].
  rewrite bind_Ok. now intros [= <-].
Qed.

Lemma fit_raises_optimization_failure_witness :
  let res := example_result 2 "Maximum number of iterations has been exceeded." in
  fit stalled_minimizer constant_rand example_model (Flat example_data) 52 =
    Raise bounds_failure \/
  fit stalled_minimizer constant_rand example_model (Flat example_data) 52 =
    Raise (status_failure res).
Proof.
  apply (fit_raises_optimization_failure stalled_minimizer constant_rand
           example_model (Flat example_data) (Flat example_data) 52 false
           (fun x => v ← log_likelihood example_model x example_data
                                        (Some example_rates);
                     Ok (- v))).
  - exact example_preprocess.
  - reflexivity.
  - cbn [objective]. now rewrite example_rates_Ok.
  - unfold stalled_minimizer.
    change (initial_guess constant_rand example_model) with [1; 1].
    now rewrite example_objective by now right.
  - reflexivity.
  - left. discriminate.
Defined.

Lemma fit_result_witness :
  exists data' multi res curve v,
    preprocess_data (Flat example_data) = Ok data' /\
    optimize accept_initial_guess constant_rand example_model data' multi
      = Ok res /\
    Forall2 (fun name xi =>
               (<["loss"%string := VFloat (- example_log_likelihood)]>
                  (<["retention_curve"%string :=
                       VList (1 :: map (sbg_S 1 1) (seq 0 2))]>
                     (dict_of_zip ["alpha"%string; "beta"%string] [1; 1])))
               !! name = Some (VFloat xi))
            (param_names example_model) (res_x res) /\
    predicted_survival example_model 2 (res_x res) = Ok curve /\
    (<["loss"%string := VFloat (- example_log_likelihood)]>
       (<["retention_curve"%string :=
            VList (1 :: map (sbg_S 1 1) (seq 0 2))]>
          (dict_of_zip ["alpha"%string; "beta"%string] [1; 1])))
      !! "retention_curve"%string = Some (VList (1 :: curve)) /\
    len (1 :: curve) = (2 + 1)%Z /\
    log_likelihood_of example_model data' (res_x res) = Ok v /\
    (<["loss"%string := VFloat (- example_log_likelihood)]>
       (<["retention_curve"%string :=
            VList (1 :: map (sbg_S 1 1) (seq 0 2))]>
          (dict_of_zip ["alpha"%string; "beta"%string] [1; 1])))
      !! "loss"%string = Some (VFloat (- v)).
Proof.
  apply (fit_result accept_initial_guess constant_rand example_model
           "nelder-mead" (Some [1; 1]) (Flat example_data) 2).
  - exact accept_initial_guess_reports.
  - left. reflexivity.
  - lia.
  - exact (example_fit 2).
Defined.

(** ** C10: [fit] with a non-positive number of periods *)

(** With [periods = 0] the example fit returns a dictionary. *)
Lemma fit_returns_for_zero_periods :
  fit accept_initial_guess constant_rand example_model (Flat example_data) 0 =
  Ok (<["loss"%string := VFloat (- example_log_likelihood)]>
        (<["retention_curve"%string := VList [1]]>
           (dict_of_zip ["alpha"%string; "beta"%string] [1; 1]))).
Proof. exact (example_fit 0). Qed.

Lemma fit_input_validation_witness :
  fit accept_initial_guess constant_rand example_model (Flat example_data) (-3) =
  Ok (<["loss"%string := VFloat (- example_log_likelihood)]>
        (<["retention_curve"%string := VList [1]]>
           (dict_of_zip ["alpha"%string; "beta"%string] [1; 1]))).
Proof.
  destruct (fit_input_validation accept_initial_guess constant_rand
              example_model (Flat example_data) (-3))
    as (_ & _ & _ & _ & H).
  apply (H (Flat example_data) false
           (example_result 0 "Optimization terminated successfully.")).
  - lia.
  - exact example_preprocess.
  - reflexivity.
  - exact example_optimize.
  - reflexivity.
Defined.

(** ** The log-gamma function: existence of the limit and its increments *)

Lemma ln_le_minus_1 (y : R) : 0 < y -> ln y <= y - 1.
Proof.
  intros Hy. pose proof (exp_ineq1_le (ln y)) as H.
  rewrite exp_ln in H by easy. lra.
Qed.

Lemma ln_monotone (x y : R) : 0 < x -> x <= y -> ln x <= ln y.
Proof.
  intros Hx [Hlt | ->]; [|lra]. left. now apply ln_increasing.
Qed.

Lemma ln_ratio (a b : R) : 0 < a -> 0 < b -> ln a - ln b = ln (a / b).
Proof.
  intros Ha Hb. unfold Rdiv.
  rewrite ln_mult, ln_Rinv by (try apply Rinv_0_lt_compat; easy). lra.
Qed.

Lemma ln_ratio_upper (a b : R) : 0 < b -> b <= a -> ln a - ln b <= (a - b) / b.
Proof.
  intros Hb Hab. rewrite ln_ratio by lra.
  pose proof (ln_le_minus_1 (a / b)) as H.
  replace ((a - b) / b) with (a / b - 1) by (field; lra).
  apply H. apply Rdiv_lt_0_compat; lra.
Qed.

Lemma ln_ratio_lower (a b : R) : 0 < b -> b <= a -> (a - b) / a <= ln a - ln b.
Proof.
  intros Hb Hab.
  pose proof (ln_le_minus_1 (b / a)) as H.
  rewrite <- ln_ratio in H by lra.
  replace ((a - b) / a) with (- (b / a - 1)) by (field; lra).
  assert (0 < b / a) by (apply Rdiv_lt_0_compat; lra). lra.
Qed.

Lemma INR_S_pos (n : nat) : 1 <= INR (S n).
Proof. rewrite S_INR. pose proof (pos_INR n). lra. Qed.

Lemma gauss_lgamma_step (x : R) (n : nat) :
  gauss_lgamma x (S n) - gauss_lgamma x n =
  x * (ln (INR (S (S n))) - ln (INR (S n)))
  - (ln (x + INR (S (S n))) - ln (INR (S (S n)))).
Proof. unfold gauss_lgamma. cbn [gauss_sum]. lra. Qed.

Lemma gauss_lgamma_step_bounds (x : R) (n : nat) :
  0 < x ->
  0 <= gauss_lgamma x (S n) - gauss_lgamma x n
    <= x * (1 + x) * (/ INR (S n) - / INR (S (S n))).
Proof.
  intros Hx. rewrite gauss_lgamma_step.
  pose proof (INR_S_pos n) as Hm. rewrite (S_INR (S n)).
  set (m := INR (S n)) in *.
  pose proof (ln_ratio_upper (m + 1) m) as U1.
  pose proof (ln_ratio_lower (m + 1) m) as L1.
  pose proof (ln_ratio_upper (x + (m + 1)) (m + 1)) as U2.
  pose proof (ln_ratio_lower (x + (m + 1)) (m + 1)) as L2.
  specialize (U1 ltac:(lra) ltac:(lra)). specialize (L1 ltac:(lra) ltac:(lra)).
  specialize (U2 ltac:(lra) ltac:(lra)). specialize (L2 ltac:(lra) ltac:(lra)).
  replace ((m + 1 - m) / m) with (/ m) in U1 by (field; lra).
  replace ((m + 1 - m) / (m + 1)) with (/ (m + 1)) in L1 by (field; lra).
  replace ((x + (m + 1) - (m + 1)) / (m + 1)) with (x * / (m + 1)) in U2
    by (field; lra).
  replace ((x + (m + 1) - (m + 1)) / (x + (m + 1))) with (x * / (x + (m + 1)))
    in L2 by (field; lra).
  assert (Hi1 : 0 < / m) by (apply Rinv_0_lt_compat; lra).
  assert (Hi2 : 0 < / (m + 1)) by (apply Rinv_0_lt_compat; lra).
  assert (Hi3 : 0 < / (x + (m + 1))) by (apply Rinv_0_lt_compat; lra).
  assert (Hi4 : / (m + 1) <= / m) by (apply Rinv_le_contravar; lra).
  split.
  - assert (x * / (m + 1) <= x * (ln (m + 1) - ln m)) by (apply Rmult_le_compat_l; lra).
    lra.
  - assert (x * (ln (m + 1) - ln m) <= x * / m) by (apply Rmult_le_compat_l; lra).
    assert (x * / m - x * / (x + (m + 1)) <= x * (1 + x) * (/ m - / (m + 1))).
    { replace (x * / m - x * / (x + (m + 1)))
        with (x * (1 + x) * (/ m * / (x + (m + 1)))) by (field; lra).
      replace (/ m - / (m + 1)) with (/ m * / (m + 1)) by (field; lra).
      apply Rmult_le_compat_l; [nra|].
      apply Rmult_le_compat_l; [lra|]. apply Rinv_le_contravar; lra. }
    lra.
Qed.

Lemma gauss_lgamma_growing (x : R) : 0 < x -> Un_growing (gauss_lgamma x).
Proof.
  intros Hx n. pose proof (gauss_lgamma_step_bounds x n Hx). lra.
Qed.

Lemma gauss_lgamma_bounded (x : R) (n : nat) :
  0 < x ->
  gauss_lgamma x n <= gauss_lgamma x 0 + x * (1 + x) * (1 - / INR (S n)).
Proof.
  intros Hx. induction n as [|n IH].
  - simpl INR. rewrite Rinv_1. lra.
  - pose proof (gauss_lgamma_step_bounds x n Hx) as [_ H].
    replace (x * (1 + x) * (1 - / INR (S (S n))))
      with (x * (1 + x) * (1 - / INR (S n))
            + x * (1 + x) * (/ INR (S n) - / INR (S (S n)))) by ring.
    lra.
Qed.

Lemma gauss_lgamma_has_ub (x : R) : 0 < x -> has_ub (gauss_lgamma x).
Proof.
  intros Hx. exists (gauss_lgamma x 0 + x * (1 + x)).
  intros r [n ->]. pose proof (gauss_lgamma_bounded x n Hx) as H.
  assert (0 < / INR (S n))
    by (apply Rinv_0_lt_compat; pose proof (INR_S_pos n); lra).
  assert (x * (1 + x) * (1 - / INR (S n)) <= x * (1 + x)); [|lra].
  rewrite <- (Rmult_1_r (x * (1 + x))) at 2.
  apply Rmult_le_compat_l; [nra|lra].
Qed.

(** On positive arguments [gammaln] is the limit of Gauss's sequence. *)
Lemma gammaln_cv (x : R) : 0 < x -> Un_cv (gauss_lgamma x) (gammaln x).
Proof.
  intros Hx. unfold gammaln. apply epsilon_spec.
  destruct (growing_cv _ (gauss_lgamma_growing x Hx) (gauss_lgamma_has_ub x Hx))
    as [l Hl].
  now exists l.
Qed.

Lemma ln_increment_antitone (u v h : R) :
  0 < u -> u <= v -> 0 <= h -> ln (v + h) - ln v <= ln (u + h) - ln u.
Proof.
  intros Hu Huv Hh. rewrite !ln_ratio by lra.
  apply ln_monotone; [apply Rdiv_lt_0_compat; lra|].
  replace ((v + h) / v) with (1 + h * / v) by (field; lra).
  replace ((u + h) / u) with (1 + h * / u) by (field; lra).
  apply Rplus_le_compat_l, Rmult_le_compat_l; [easy|].
  apply Rinv_le_contravar; lra.
Qed.

Lemma gauss_sum_increment_antitone (u v h : R) (n : nat) :
  0 < u -> u <= v -> 0 <= h ->
  gauss_sum (v + h) n - gauss_sum v n <= gauss_sum (u + h) n - gauss_sum u n.
Proof.
  intros Hu Huv Hh. induction n as [|n IH]; [simpl; lra|].
  cbn [gauss_sum]. pose proof (INR_S_pos n).
  pose proof (ln_increment_antitone (u + INR (S n)) (v + INR (S n)) h) as H1.
  replace (v + INR (S n) + h) with (v + h + INR (S n)) in H1 by ring.
  replace (u + INR (S n) + h) with (u + h + INR (S n)) in H1 by ring.
  specialize (H1 ltac:(lra) ltac:(lra) Hh). lra.
Qed.

Lemma gauss_lgamma_increment_monotone (u v h : R) (n : nat) :
  0 < u -> u <= v -> 0 <= h ->
  gauss_lgamma (u + h) n - gauss_lgamma u n
  <= gauss_lgamma (v + h) n - gauss_lgamma v n.
Proof.
  intros Hu Huv Hh. unfold gauss_lgamma.
  pose proof (gauss_sum_increment_antitone u v h (S n) Hu Huv Hh).
  pose proof (ln_increment_antitone u v h Hu Huv Hh).
  lra.
Qed.

(** The increments of [gammaln] grow with the argument: [gammaln] is
    convex on the positive reals. *)
Lemma gammaln_increment_monotone (u v h : R) :
  0 < u -> u <= v -> 0 <= h ->
  gammaln (u + h) - gammaln u <= gammaln (v + h) - gammaln v.
Proof.
  intros Hu Huv Hh.
  apply Rle_cv_lim
    with (Un := fun n => gauss_lgamma (u + h) n - gauss_lgamma u n)
         (Vn := fun n => gauss_lgamma (v + h) n - gauss_lgamma v n).
  - intros n. now apply gauss_lgamma_increment_monotone.
  - apply CV_minus; apply gammaln_cv; lra.
  - apply CV_minus; apply gammaln_cv; lra.
Qed.

Lemma cv_zero_of_bound (U : nat -> R) (C : R) :
  0 < C -> (forall n, 0 <= U n <= C * / INR (S n)) -> Un_cv U 0.
Proof.
  intros HC HU eps Heps.
  destruct (archimed_cor1 (eps / C)) as (N & HN & HN0);
    [apply Rdiv_lt_0_compat; lra|].
  exists N. intros n Hn. unfold R_dist. rewrite Rminus_0_r.
  destruct (HU n) as [H0 H1]. rewrite Rabs_pos_eq by easy.
  assert (/ INR (S n) <= / INR N).
  { apply Rinv_le_contravar; [apply lt_0_INR; lia | apply le_INR; lia]. }
  assert (C * / INR (S n) < eps); [|lra].
  apply Rle_lt_trans with (C * / INR N); [apply Rmult_le_compat_l; lra|].
  apply Rmult_lt_reg_r with (/ C); [now apply Rinv_0_lt_compat|].
  assert (0 < INR N) by (apply lt_0_INR; lia).
  replace (C * / INR N * / C) with (/ INR N) by (field; lra).
  exact HN.
Qed.

Lemma gauss_sum_shift (x : R) (n : nat) :
  0 < x ->
  gauss_sum (x + 1) n - gauss_sum x n = ln (x + 1 + INR n) - ln (x + 1).
Proof.
  intros Hx. induction n as [|n IH].
  - simpl. rewrite Rplus_0_r. lra.
  - cbn [gauss_sum]. rewrite !S_INR.
    replace (x + (INR n + 1)) with (x + 1 + INR n) by ring.
    lra.
Qed.

(** [gammaln (x + 1) = gammaln x + ln x] and [gammaln 1 = 0]: with its
    convexity, this identifies [gammaln] as the logarithm of the Gamma
    function. *)
Lemma gammaln_succ (x : R) : 0 < x -> gammaln (x + 1) = gammaln x + ln x.
Proof.
  intros Hx.
  assert (H : Un_cv (fun n => ln x - (gauss_lgamma (x + 1) n - gauss_lgamma x n)) 0).
  { apply (cv_zero_of_bound _ (x + 1)); [lra|]. intros n.
    unfold gauss_lgamma.
    pose proof (gauss_sum_shift x (S n) Hx) as Hs.
    pose proof (INR_S_pos n) as Hn.
    pose proof (ln_ratio_upper (x + 1 + INR (S n)) (INR (S n))) as U.
    pose proof (ln_ratio_lower (x + 1 + INR (S n)) (INR (S n))) as L.
    specialize (U ltac:(lra) ltac:(lra)). specialize (L ltac:(lra) ltac:(lra)).
    replace ((x + 1 + INR (S n) - INR (S n)) / INR (S n))
      with ((x + 1) * / INR (S n)) in U by (field; lra).
    assert (0 <= (x + 1 + INR (S n) - INR (S n)) / (x + 1 + INR (S n))).
    { apply Rlt_le, Rdiv_lt_0_compat; lra. }
    replace (ln x - ((x + 1) * ln (INR (S n)) - ln (x + 1) - gauss_sum (x + 1) (S n)
                     - (x * ln (INR (S n)) - ln x - gauss_sum x (S n))))
      with (ln (x + 1 + INR (S n)) - ln (INR (S n))) by lra.
    lra. }
  pose proof (CV_minus _ _ _ _ (gammaln_cv (x + 1) ltac:(lra)) (gammaln_cv x Hx)) as Hd.
  assert (H' : Un_cv (fun n => gauss_lgamma (x + 1) n - gauss_lgamma x n) (ln x - 0)).
  { assert (Hc : Un_cv (fun _ : nat => ln x) (ln x)).
    { intros eps Heps. exists O. intros n _. unfold R_dist.
      rewrite Rminus_diag, Rabs_R0. lra. }
    eapply Un_cv_ext; [|exact (CV_minus _ _ _ _ Hc H)].
    intros n. simpl. lra. }
  pose proof (UL_sequence _ _ _ Hd H'). lra.
Qed.

Lemma gauss_sum_1 (n : nat) : gauss_sum 1 n = ln (1 + INR n).
Proof.
  induction n as [|n IH].
  - simpl. now rewrite Rplus_0_r, ln_1.
  - cbn [gauss_sum]. rewrite IH, !S_INR.
    replace (INR n + 1) with (1 + INR n) by ring. lra.
Qed.

Lemma gammaln_1 : gammaln 1 = 0.
Proof.
  assert (H : Un_cv (fun n => - gauss_lgamma 1 n) 0).
  { apply (cv_zero_of_bound _ 1); [lra|]. intros n.
    unfold gauss_lgamma. rewrite gauss_sum_1, ln_1.
    pose proof (INR_S_pos n) as Hn.
    pose proof (ln_ratio_upper (1 + INR (S n)) (INR (S n))) as U.
    pose proof (ln_ratio_lower (1 + INR (S n)) (INR (S n))) as L.
    specialize (U ltac:(lra) ltac:(lra)). specialize (L ltac:(lra) ltac:(lra)).
    replace ((1 + INR (S n) - INR (S n)) / INR (S n))
      with (1 * / INR (S n)) in U by (field; lra).
    assert (0 <= (1 + INR (S n) - INR (S n)) / (1 + INR (S n))).
    { apply Rlt_le, Rdiv_lt_0_compat; lra. }
    lra. }
  pose proof (CV_opp _ _ (gammaln_cv 1 ltac:(lra))) as H'.
  pose proof (UL_sequence _ _ _ H H'). lra.
Qed.

(** ** The predicted survival in exact arithmetic *)

Lemma sbg_S_step (alpha beta : R) (t : nat) :
  0 < alpha -> 0 < beta -> sbg_S alpha beta (S t) <= sbg_S alpha beta t.
Proof.
  intros Ha Hb. cbn [sbg_S].
  pose proof (sbg_p_pos alpha beta (S t) Ha Hb). lra.
Qed.

Lemma Rpower_period_monotone (t : Z) (c : R) :
  (0 <= t)%Z -> 0 < c ->
  0 < Rpower (IZR (t + 1)) c <= Rpower (IZR (t + 1 + 1)) c.
Proof.
  intros Ht Hc. split; [apply exp_pos|].
  apply Rle_Rpower_l; [lra|]. split.
  - apply IZR_lt. lia.
  - apply IZR_le. lia.
Qed.

Lemma bdw_S_step (alpha beta c : R) (t : Z) :
  0 < alpha -> 0 < beta -> 0 < c -> (0 <= t)%Z ->
  bdw_S alpha beta c (t + 1) <= bdw_S alpha beta c t.
Proof.
  intros Ha Hb Hc Ht. unfold bdw_S.
  destruct (Rpower_period_monotone t c Ht Hc) as [Hpos Hle].
  set (x := Rpower (IZR (t + 1)) c) in *.
  set (y := Rpower (IZR (t + 1 + 1)) c) in *.
  pose proof (gammaln_increment_monotone (beta + x) (beta + y) alpha
                ltac:(lra) ltac:(lra) ltac:(lra)) as H.
  replace (beta + x + alpha) with (alpha + beta + x) in H by ring.
  replace (beta + y + alpha) with (alpha + beta + y) in H by ring.
  match goal with
  | |- exp ?a <= exp ?b => destruct (Rle_lt_or_eq_dec a b) as [Hlt | ->]
  end; [lra | left; now apply exp_increasing | right; reflexivity].
Qed.

Lemma non_increasing_map_seq (f : nat -> R) (n : nat) :
  (forall k, f (S k) <= f k) -> non_increasing (map f (seq 0 n)).
Proof.
  intros Hf i Hi. rewrite length_map, length_seq in Hi.
  rewrite !nth_map_seq by lia. apply Hf.
Qed.

(** In exact arithmetic, that is with the operations, [gammaln], [exp] and
    [**] taken on real numbers: for the SBG and the BDW model, a parameter
    vector inside the declared bounds and [t >= 0], the values [s] and [s']
    of [survivor(t, params)] and [survivor(t + 1, params)] satisfy
    [s' <= s], and for every [periods] the values of
    [predicted_survival(periods, params)] are non-increasing.  The binary64
    values of the BDW survivor are sums of four rounded [gammaln] values and
    are not covered. *)
Theorem survivor_non_increasing (self : LTVModel) (method : string)
  (init : option (list R)) (params : list R) (t : Z) :
  self = SBGModel method init \/ self = BDWModel method init ->
  in_bounds self params ->
  (0 <= t)%Z ->
  (exists s s',
      survivor self t params None = Ok s /\
      survivor self (t + 1) params None = Ok s' /\
      s' <= s) /\
  (forall periods,
      exists curve,
        predicted_survival self periods params = Ok curve /\
        non_increasing curve).
Proof.
  intros [-> | ->] Hb Ht.
  - apply in_bounds_SBG in Hb as (alpha & beta & -> & Ha & Hb).
    cbn [survivor SBGModel]. unfold predicted_survival. cbn [survivor SBGModel].
    split.
    + exists (sbg_S alpha beta (Z.to_nat t)), (sbg_S alpha beta (S (Z.to_nat t))).
      split; [|split].
      * rewrite <- (Z2Nat.id t) at 1 by lia. apply SBG_survivor_Ok.
      * replace (t + 1)%Z with (Z.of_nat (S (Z.to_nat t))) by lia.
        apply SBG_survivor_Ok.
      * apply sbg_S_step; lra.
    + intros periods. rewrite SBG_predicted_survival_Ok.
      eexists. split; [reflexivity|].
      apply non_increasing_map_seq. intros k. apply sbg_S_step; lra.
  - apply in_bounds_BDW in Hb as (alpha & beta & c & -> & Ha & Hb & Hc).
    cbn [survivor BDWModel]. unfold predicted_survival. cbn [survivor BDWModel].
    split.
    + exists (bdw_S alpha beta c t), (bdw_S alpha beta c (t + 1)).
      rewrite !BDW_survivor_Ok. repeat split.
      apply bdw_S_step; (lra || lia).
    + intros periods. rewrite BDW_predicted_survival_Ok.
      eexists. split; [reflexivity|].
      intros i Hi. rewrite length_map, length_range in Hi.
      rewrite !nth_map_range by lia.
      replace (0 + Z.of_nat (S i))%Z with (0 + Z.of_nat i + 1)%Z by lia.
      apply bdw_S_step; (lra || lia).
Qed.

(** * Further properties of the module *)

(** ** Further properties of [survival_rates] *)







Lemma survival_rates_nth (data rates : list R) (k : nat) :
  survival_rates data = Ok rates -> (k < length data)%nat ->
  nth k rates 0 = match k with
                  | O => 1 - nth 0 data 0
                  | S j => nth j data 0 - nth k data 0
                  end.
Proof.
  intros Hr Hk.
  replace (nth k rates 0) with (item rates (Z.of_nat k))
    by (unfold item; now rewrite Nat2Z.id).
  rewrite (survival_rates_item _ _ _ Hr) by (unfold len; lia).
  destruct k as [|j]; [reflexivity|].
  destruct (Z.eqb_spec (Z.of_nat (S j)) 0); [lia|]. unfold item.
  replace (Z.to_nat (Z.of_nat (S j) - 1)) with j by lia.
  now rewrite Nat2Z.id.
Qed.

Lemma survival_rates_nonneg_if (data rates : list R) :
  survival_rates data = Ok rates ->
  nth 0 data 0 <= 1 -> non_increasing data ->
  Forall (fun r => 0 <= r) rates.
Proof.
  intros Hr H0 Hni. apply (Forall_nth _ 0).
  rewrite (survival_rates_length _ _ Hr). intros k Hk.
  rewrite (survival_rates_nth _ _ _ Hr Hk). destruct k as [|j]; [lra|].
  specialize (Hni j Hk). lra.
Qed.

(** X2.  The rates that [survival_rates] returns are all non-negative
    exactly when the series starts at or below [1] and is non-increasing. *)
Theorem survival_rates_nonnegative (data rates : list R) :
  survival_rates data = Ok rates ->
  Forall (fun r => 0 <= r) rates <-> item data 0 <= 1 /\ non_increasing data.
Proof.
  intros Hr. split.
  - intros H. pose proof (survival_rates_length _ _ Hr) as Hl.
    assert (Hd : data <> []) by (intros ->; discriminate).
    pose proof (len_pos data Hd) as Hpos. unfold len in Hpos.
    rewrite (Forall_nth _ 0), Hl in H. split.
    + specialize (H O ltac:(lia)).
      rewrite (survival_rates_nth _ _ _ Hr) in H by lia.
      change (item data 0) with (nth 0 data 0). lra.
    + intros i Hi. specialize (H (S i) Hi).
      rewrite (survival_rates_nth _ _ _ Hr Hi) in H. lra.
  - intros [H0 Hni]. now apply (survival_rates_nonneg_if data).
Qed.

Lemma survival_rates_nonnegative_witness :
  Forall (fun r => 0 <= r) example_rates <->
  item example_data 0 <= 1 /\ non_increasing example_data.
Proof.
  apply (survival_rates_nonnegative example_data example_rates).
  exact example_rates_Ok.
Defined.

(** ** Further properties of the SBG model *)

Lemma SBG_generate_probabilities_value (alpha beta : R) (periods : Z) :
  SBG_generate_probabilities periods [alpha; beta] =
  Ok (map (sbg_p alpha beta) (seq 0 (Z.to_nat (Z.max 1 periods)))).
Proof.
  destruct (Z.le_gt_cases periods 1) as [H | H].
  - rewrite SBG_generate_probabilities_short by easy.
    now replace (Z.to_nat (Z.max 1 periods)) with 1%nat by lia.
  - replace periods with (Z.of_nat (S (Z.to_nat (periods - 1)))) at 1 by lia.
    rewrite SBG_generate_probabilities_Ok. do 3 f_equal. lia.
Qed.

(** X3.  For positive [alpha] and [beta], SBG [generate_probabilities]
    returns for every [periods], also zero and negative ones, and the
    sequence has [max(1, periods)] entries, the first of which is
    [alpha / (alpha + beta)]: for [periods <= 0] it is not empty. *)
Theorem SBG_generate_probabilities_length (alpha beta : R) (periods : Z) :
  0 < alpha -> 0 < beta ->
  exists p,
    SBG_generate_probabilities periods [alpha; beta] = Ok p /\
    len p = Z.max 1 periods /\
    item p 0 = alpha / (alpha + beta).
Proof.
  intros _ _. eexists. split; [apply SBG_generate_probabilities_value|]. split.
  - rewrite len_map_seq. lia.
  - rewrite item_map_seq by lia. reflexivity.
Qed.

Lemma SBG_generate_probabilities_length_witness :
  exists p,
    SBG_generate_probabilities 0 [1; 2] = Ok p /\
    len p = Z.max 1 0 /\
    item p 0 = 1 / (1 + 2).
Proof. apply (SBG_generate_probabilities_length 1 2 0); lra. Defined.

(** X4.  For positive [alpha] and [beta], the SBG probabilities of a shorter
    horizon are a prefix of those of a longer one. *)
Theorem SBG_generate_probabilities_prefix (alpha beta : R) (n m : Z) :
  0 < alpha -> 0 < beta -> (n <= m)%Z ->
  exists p q,
    SBG_generate_probabilities n [alpha; beta] = Ok p /\
    SBG_generate_probabilities m [alpha; beta] = Ok q /\
    p = firstn (length p) q.
Proof.
  intros _ _ Hnm. do 2 eexists.
  split; [apply SBG_generate_probabilities_value|].
  split; [apply SBG_generate_probabilities_value|].
  rewrite length_map, length_seq, firstn_map, firstn_seq_min.
  do 2 f_equal. lia.
Qed.

Lemma SBG_generate_probabilities_prefix_witness :
  exists p q,
    SBG_generate_probabilities 2 [1; 2] = Ok p /\
    SBG_generate_probabilities 5 [1; 2] = Ok q /\
    p = firstn (length p) q.
Proof. apply (SBG_generate_probabilities_prefix 1 2 2 5); (lra || lia). Defined.

Lemma range_split (a b c : Z) :
  (a <= b <= c)%Z -> range a c = range a b ++ range b c.
Proof.
  intros [Hab Hbc].
  replace c with (b + Z.of_nat (Z.to_nat (c - b)))%Z by lia.
  induction (Z.to_nat (c - b)) as [|n IH].
  - rewrite Z.add_0_r, (range_empty b b), app_nil_r by lia. reflexivity.
  - replace (b + Z.of_nat (S n))%Z with (b + Z.of_nat n + 1)%Z by lia.
    rewrite !range_snoc by lia. now rewrite IH, app_assoc.
Qed.

Lemma Sigma_first (f : Z -> R) (n : nat) :
  Sigma 0 (S n) f = f 0%Z + Sigma 1 n f.
Proof.
  induction n as [|n IH].
  { cbn [Sigma]. change (0 + Z.of_nat 0)%Z with 0%Z. lra. }
  cbn [Sigma] in *. rewrite IH.
  replace (0 + Z.of_nat (S n))%Z with (1 + Z.of_nat n)%Z by lia. lra.
Qed.

(** X6.  With a precomputed, non-empty probability sequence SBG [survivor]
    does not look at [params]: for [0 <= t < len(probabilities)] it returns
    one minus the first [t + 1] probabilities, and for [t >=
    len(probabilities)] it raises [IndexError]; handing in the sequence
    that [generate_probabilities(t + 1, params)] returns gives the result of
    the call without it. *)
Theorem SBG_survivor_precomputed (params probabilities : list R) (t : Z) :
  probabilities <> [] -> (0 <= t)%Z ->
  SBG_survivor t params (Some probabilities) =
    (if (t <? len probabilities)%Z
     then Ok (1 - Sigma 0 (Z.to_nat t + 1) (item probabilities))
     else Raise IndexError) /\
  (SBG_generate_probabilities (t + 1) params = Ok probabilities ->
   SBG_survivor t params (Some probabilities) = SBG_survivor t params None).
Proof.
  intros Hp Ht. pose proof (len_pos probabilities Hp) as Hlen.
  assert (Hm : forall other : exc (list R),
             match Some probabilities with
             | Some (p :: l) => Ok (p :: l)
             | _ => other
             end = Ok probabilities)
    by (intros other; now destruct probabilities).
  split.
  - unfold SBG_survivor. rewrite Hm, bind_Ok.
    rewrite getitem_nth, bind_Ok by lia.
    destruct (Z.ltb_spec t (len probabilities)) as [Hlt | Hge].
    + replace (t + 1)%Z with (Z.of_nat (S (Z.to_nat t))) by lia.
      rewrite SBG_survivor_loop by lia. f_equal.
      rewrite Nat.add_1_r, Sigma_first. lra.
    + rewrite (range_split 1 (len probabilities) (t + 1)) by lia.
      rewrite foldM_exc_app.
      replace (len probabilities)
        with (Z.of_nat (S (Z.to_nat (len probabilities - 1)))) at 1 by lia.
      rewrite SBG_survivor_loop, bind_Ok by lia.
      rewrite (range_cons (len probabilities)) by lia. cbn [foldM_exc].
      now rewrite getitem_out_of_range by lia.
  - intros Hgp. unfold SBG_survivor. now rewrite Hm, Hgp.
Qed.

Lemma SBG_survivor_precomputed_witness :
  let p := [0.5; 0.25] in
  SBG_survivor 1 [] (Some p) =
    (if (1 <? len p)%Z
     then Ok (1 - Sigma 0 (Z.to_nat 1 + 1) (item p))
     else Raise IndexError) /\
  (SBG_generate_probabilities (1 + 1) [] = Ok p ->
   SBG_survivor 1 [] (Some p) = SBG_survivor 1 [] None).
Proof.
  apply (SBG_survivor_precomputed [] [0.5; 0.25] 1); [discriminate | lia].
Defined.

(** ** Further properties of the BDW model *)

(** X8.  For [periods <= 0] BDW [generate_probabilities] raises
    [IndexError], whatever the parameter vector: the empty survival curve has
    no first element to difference. *)
Theorem BDW_generate_probabilities_no_periods (params : list R) (periods : Z) :
  (periods <= 0)%Z ->
  BDW_generate_probabilities periods params = Raise IndexError.
Proof.
  intros Hp. unfold BDW_generate_probabilities, predicted_survival_of.
  now rewrite range_empty by lia.
Qed.

Lemma BDW_generate_probabilities_no_periods_witness :
  BDW_generate_probabilities 0 [1; 2; 1.5] = Raise IndexError.
Proof. apply (BDW_generate_probabilities_no_periods [1; 2; 1.5] 0). lia. Defined.

(** ** Errors of the likelihoods *)

Lemma unpack2_wrong_length (params : list R) :
  length params <> 2%nat -> unpack2 params = Raise ValueError.
Proof. now destruct params as [|a [|b [|c l]]]. Qed.

Lemma unpack3_wrong_length (params : list R) :
  length params <> 3%nat -> unpack3 params = Raise ValueError.
Proof. now destruct params as [|a [|b [|c [|d l]]]]. Qed.

Lemma BDW_survivor_wrong_length (t : Z) (params : list R)
  (probabilities : option (list R)) :
  length params <> 3%nat -> BDW_survivor t params probabilities = Raise ValueError.
Proof. intros H. unfold BDW_survivor. now rewrite unpack3_wrong_length. Qed.

Lemma generate_probabilities_wrong_length (self : LTVModel) (method : string)
  (init : option (list R)) (params : list R) (periods : Z) :
  self = SBGModel method init \/ self = BDWModel method init ->
  length params <> length (param_names self) ->
  (1 <= periods)%Z ->
  generate_probabilities self periods params = Raise ValueError.
Proof.
  intros [-> | ->] Hl Hp; cbn [generate_probabilities SBGModel BDWModel].
  - unfold SBG_generate_probabilities. now rewrite unpack2_wrong_length.
  - unfold BDW_generate_probabilities, predicted_survival_of.
    rewrite range_cons by lia. cbn [mapM_exc].
    now rewrite BDW_survivor_wrong_length.
Qed.

(** X11.  For the SBG and the BDW model, a parameter vector with strictly
    positive components but not as many as the model has parameter names
    makes both likelihoods raise [ValueError] on non-empty data: the tuple
    unpacking of the model fails. *)
Theorem likelihood_wrong_parameter_count (self : LTVModel) (method : string)
  (init : option (list R)) (params data first : list R)
  (others : list (list R)) :
  self = SBGModel method init \/ self = BDWModel method init ->
  Forall (fun x => 0 < x) params ->
  length params <> length (param_names self) ->
  data <> [] -> first <> [] ->
  log_likelihood self params data None = Raise ValueError /\
  log_likelihood_multi_cohort self params (first :: others) = Raise ValueError.
Proof.
  intros Hself Hpos Hl Hd Hf. split.
  - unfold log_likelihood.
    rewrite any_nonpositive_false, survival_rates_Ok, bind_Ok by easy.
    rewrite (generate_probabilities_wrong_length self method init); auto.
    pose proof (len_pos data Hd). lia.
  - unfold log_likelihood_multi_cohort.
    rewrite any_nonpositive_false, getitem_0_cons, bind_Ok by easy.
    rewrite (generate_probabilities_wrong_length self method init); auto.
    pose proof (len_pos first Hf). lia.
Qed.

Lemma likelihood_wrong_parameter_count_witness :
  log_likelihood (SBGModel "nelder-mead" None) [1; 2; 1.5] [0.8; 0.65] None
    = Raise ValueError /\
  log_likelihood_multi_cohort (SBGModel "nelder-mead" None) [1; 2; 1.5]
    ([733; 379] :: [[519; 286]]) = Raise ValueError.
Proof.
  apply (likelihood_wrong_parameter_count (SBGModel "nelder-mead" None)
           "nelder-mead" None).
  - left. reflexivity.
  - repeat constructor; lra.
  - simpl. lia.
  - discriminate.
  - discriminate.
Defined.

(** X12.  For every model and every parameter vector with strictly positive
    components, both likelihoods raise [IndexError] on empty data. *)
Theorem likelihood_empty_data (self : LTVModel) (params : list R) :
  Forall (fun x => 0 < x) params ->
  log_likelihood self params [] None = Raise IndexError /\
  log_likelihood_multi_cohort self params [] = Raise IndexError.
Proof.
  intros Hpos. unfold log_likelihood, log_likelihood_multi_cohort.
  now rewrite any_nonpositive_false.
Qed.

Lemma likelihood_empty_data_witness :
  log_likelihood raising_model [1; 2] [] None = Raise IndexError /\
  log_likelihood_multi_cohort raising_model [1; 2] [] = Raise IndexError.
Proof.
  apply (likelihood_empty_data raising_model [1; 2]). repeat constructor; lra.
Defined.

(** A comprehension raises when one of its items does and those before it
    return; so does a loop. *)
Lemma mapM_exc_raises {A B : Type} (f : A -> exc B) (e : error)
  (bad : A -> Prop) (l : list A) :
  (forall a, In a l -> bad a -> f a = Raise e) ->
  (forall a, In a l -> ~ bad a -> exists b, f a = Ok b) ->
  (forall a, In a l -> bad a \/ ~ bad a) ->
  Exists bad l -> mapM_exc f l = Raise e.
Proof.
  intros Hbad Hgood Hdec Hex. induction l as [|a l IH]; [inversion Hex|].
  cbn [mapM_exc]. destruct (Hdec a (or_introl eq_refl)) as [Ha | Ha].
  - now rewrite (Hbad a (or_introl eq_refl) Ha).
  - destruct (Hgood a (or_introl eq_refl) Ha) as [b ->]. rewrite bind_Ok.
    rewrite IH; [reflexivity| | | |].
    + intros x Hx. apply Hbad. now right.
    + intros x Hx. apply Hgood. now right.
    + intros x Hx. apply Hdec. now right.
    + now inversion Hex.
Qed.

Lemma foldM_exc_raises {A S : Type} (body : S -> A -> exc S) (e : error)
  (bad : A -> Prop) (l : list A) (acc : S) :
  (forall a s, In a l -> bad a -> body s a = Raise e) ->
  (forall a s, In a l -> ~ bad a -> exists s', body s a = Ok s') ->
  (forall a, In a l -> bad a \/ ~ bad a) ->
  Exists bad l -> foldM_exc body acc l = Raise e.
Proof.
  intros Hbad Hgood Hdec Hex. revert acc.
  induction l as [|a l IH]; intros acc; [inversion Hex|].
  cbn [foldM_exc]. destruct (Hdec a (or_introl eq_refl)) as [Ha | Ha].
  - now rewrite (Hbad a acc (or_introl eq_refl) Ha).
  - destruct (Hgood a acc (or_introl eq_refl) Ha) as [s' ->]. rewrite bind_Ok.
    apply IH.
    + intros x s Hx. apply Hbad. now right.
    + intros x s Hx. apply Hgood. now right.
    + intros x Hx. apply Hdec. now right.
    + now inversion Hex.
Qed.

(** X13.  When some cohort has more periods but the last than
    [generate_probabilities(len(data[0]), params)] returned probabilities,
    while the cohorts are non-empty and [survivor] returns,
    [log_likelihood_multi_cohort] raises [IndexError]: the cohorts have to
    come longest first. *)
Theorem log_likelihood_multi_cohort_long_cohort (self : LTVModel)
  (params : list R) (first : list R) (others : list (list R))
  (probabilities : list R) :
  let data := first :: others in
  Forall (fun x => 0 < x) params ->
  generate_probabilities self (len first) params = Ok probabilities ->
  Forall (fun cohort => cohort <> []) data ->
  (forall t, (0 <= t < len data)%Z ->
             exists s, survivor self t params None = Ok s) ->
  Exists (fun cohort => (len probabilities < len cohort - 1)%Z) data ->
  log_likelihood_multi_cohort self params data = Raise IndexError.
Proof.
  intros data Hpos Hgp Hne Hsv Hlong.
  unfold log_likelihood_multi_cohort.
  rewrite any_nonpositive_false by easy.
  change (getitem data 0) with (Ok first).
  rewrite bind_Ok, Hgp, bind_Ok. cbv zeta.
  apply (foldM_exc_raises _ _
           (fun ic : Z * list R => (len probabilities < len (snd ic) - 1)%Z)).
  - intros [i cohort] total Hin Hbad. cbn [snd] in Hbad.
    rewrite (mapM_exc_raises _ IndexError (fun j => (len probabilities <= j)%Z));
      [reflexivity| | | |].
    + intros j Hj%in_range Hb.
      rewrite (getitem_nth cohort j), bind_Ok by lia.
      rewrite (getitem_nth cohort (j + 1)), bind_Ok by lia.
      now rewrite getitem_out_of_range.
    + intros j Hj%in_range Hg.
      rewrite !getitem_nth, !bind_Ok by lia. eauto.
    + intros j _. lia.
    + apply List.Exists_exists. exists (len probabilities). split; [|lia].
      apply in_range. pose proof (len_nonneg probabilities). lia.
  - intros [i cohort] total Hin Hgood. cbn [snd] in Hgood.
    pose proof (in_combine_l _ _ _ _ Hin) as Hi%in_range.
    pose proof (in_combine_r _ _ _ _ Hin) as Hc.
    rewrite List.Forall_forall in Hne. specialize (Hne _ Hc).
    pose proof (len_pos cohort Hne).
    rewrite (mapM_exc_Ok _
               (fun j => (item cohort j - item cohort (j + 1))
                         * ln (item probabilities j)))
      by (intros j Hj%in_range; now rewrite !getitem_nth by lia).
    destruct (Hsv (len data - i - 1)%Z) as [s Hs]; [lia|].
    rewrite bind_Ok, getitem_last, bind_Ok, Hs, bind_Ok by easy. eauto.
  - intros [i cohort] _. cbn [snd]. lia.
  - apply List.Exists_exists in Hlong as (cohort & Hin & Hbad).
    apply List.Exists_exists.
    destruct (In_nth _ _ [] Hin) as (k & Hk & Hnth).
    exists (Z.of_nat k, cohort). split; [|exact Hbad].
    rewrite (enumerate_nth []). apply in_map_iff. exists k.
    split; [now rewrite Hnth | apply in_seq; lia].
Qed.

Lemma log_likelihood_multi_cohort_long_cohort_witness :
  log_likelihood_multi_cohort (SBGModel "nelder-mead" None) [1; 1]
    ([5; 3] :: [[9; 7; 6; 5]]) = Raise IndexError.
Proof.
  apply (log_likelihood_multi_cohort_long_cohort (SBGModel "nelder-mead" None)
           [1; 1] [5; 3] [[9; 7; 6; 5]] (map (sbg_p 1 1) (seq 0 2))).
  - repeat constructor; lra.
  - exact (SBG_generate_probabilities_Ok 1 1 1).
  - repeat constructor; discriminate.
  - intros t Ht. exists (sbg_S 1 1 (Z.to_nat t)). cbn [survivor SBGModel].
    rewrite <- (Z2Nat.id t) at 1 by lia. apply SBG_survivor_Ok.
  - apply Exists_cons_tl, Exists_cons_hd. unfold len. simpl. lia.
Defined.

(** ** Further properties of [preprocess_data] *)

(** X15.  Raw counts are normalised up to their unit: multiplying a series
    of counts by a positive factor that keeps its first element above [1]
    does not change what [preprocess_data] returns. *)
Theorem preprocess_data_scale_invariant (k x : R) (xs : list R) :
  0 < k -> 1 < x -> 1 < k * x ->
  preprocess_data (Flat (map (Rmult k) (x :: xs))) =
  preprocess_data (Flat (x :: xs)).
Proof.
  intros Hk Hx Hkx. cbn [preprocess_data map]. unfold preprocess_flat.
  rewrite !getitem_0_cons, !bind_Ok, !Rltb_true by easy.
  do 2 f_equal. unfold slice_from_1. cbn [map drop]. rewrite map_map.
  apply map_ext. intros v. field. lra.
Qed.

Lemma preprocess_data_scale_invariant_witness :
  preprocess_data (Flat (map (Rmult 1000) [733; 379; 282; 225])) =
  preprocess_data (Flat [733; 379; 282; 225]).
Proof. apply (preprocess_data_scale_invariant 1000 733 [379; 282; 225]); lra. Defined.

(** X16.  On a flat series that starts with a count or an explicit [1] and
    whose second element is smaller than the first, [preprocess_data]
    returns a series that starts below [1], has lost only the leading
    element, and that [preprocess_data] returns unchanged. *)
Theorem preprocess_data_idempotent (x y : R) (ys : list R) :
  1 <= x -> y < x ->
  exists r,
    preprocess_data (Flat (x :: y :: ys)) = Ok (Flat r) /\
    len r = len (y :: ys) /\
    item r 0 < 1 /\
    preprocess_data (Flat r) = Ok (Flat r).
Proof.
  intros Hx Hy. cbn [preprocess_data]. unfold preprocess_flat.
  rewrite getitem_0_cons, bind_Ok.
  destruct (Rlt_dec 1 x) as [Hgt | Hle].
  - rewrite Rltb_true by easy. unfold slice_from_1. cbn [map drop].
    assert (Hq : y / x < 1).
    { apply Rmult_lt_reg_r with x; [lra|].
      replace (y / x * x) with y by (field; lra). lra. }
    eexists. split; [reflexivity|]. split; [|split; [exact Hq|]].
    + unfold len. simpl. now rewrite length_map.
    + now rewrite getitem_0_cons, bind_Ok, Rltb_false, Reqb_false by lra.
  - assert (x = 1) by lra. subst x.
    rewrite Rltb_false, Reqb_true by lra. unfold slice_from_1. cbn [drop].
    exists (y :: ys). split; [reflexivity|]. split; [reflexivity|].
    split; [exact Hy|].
    now rewrite getitem_0_cons, bind_Ok, Rltb_false, Reqb_false by lra.
Qed.

Lemma preprocess_data_idempotent_witness :
  exists r,
    preprocess_data (Flat (733 :: 379 :: [282; 225])) = Ok (Flat r) /\
    len r = len (379 :: [282; 225]) /\
    item r 0 < 1 /\
    preprocess_data (Flat r) = Ok (Flat r).
Proof. apply (preprocess_data_idempotent 733 379 [282; 225]); lra. Defined.

(** X17.  A single cohort wrapped in a list is preprocessed like the flat
    series, normalisation included, while a list of two or more cohorts
    passes [preprocess_data] as it is, without normalisation. *)
Theorem preprocess_data_nested (d : list R) (cohorts : list (list R)) :
  preprocess_data (Nested [d]) = preprocess_data (Flat d) /\
  ((2 <= len cohorts)%Z ->
   preprocess_data (Nested cohorts) = Ok (Nested cohorts)).
Proof.
  split; [reflexivity|]. intros Hlen.
  destruct cohorts as [|c1 [|c2 rest]];
    [unfold len in Hlen; simpl in Hlen; lia ..|].
  cbn [preprocess_data]. rewrite getitem_0_cons, bind_Ok.
  destruct (Z.eqb_spec (len (c1 :: c2 :: rest)) 1) as [E|_]; [|reflexivity].
  rewrite !len_cons in E. pose proof (len_nonneg rest). lia.
Qed.

Lemma preprocess_data_nested_witness :
  preprocess_data (Nested [[733; 379]; [519; 286]])
    = Ok (Nested [[733; 379]; [519; 286]]).
Proof.
  apply (proj2 (preprocess_data_nested [] [[733; 379]; [519; 286]])).
  unfold len. simpl. lia.
Defined.

(** ** Further properties of [predicted_survival] and [fit] *)

Lemma mapM_exc_app_Ok {A B : Type} (f : A -> exc B) (l k : list A)
  (r : list B) :
  mapM_exc f (l ++ k) = Ok r ->
  mapM_exc f l = Ok (firstn (length l) r).
Proof.
  revert r. induction l as [|a l IH]; intros r; [reflexivity|].
  cbn [app mapM_exc]. destruct (f a) as [b|]; [|discriminate].
  rewrite !bind_Ok.
  destruct (mapM_exc f (l ++ k)) as [bs|] eqn:E; [|discriminate].
  rewrite bind_Ok. intros [= <-]. now rewrite (IH bs eq_refl).
Qed.

(** X20.  For every model, when [predicted_survival(periods, params)]
    returns, it returns for every shorter horizon too, zero and negative
    ones included, with [max(0, shorter)] values that are a prefix of the
    longer curve. *)
Theorem predicted_survival_prefix (self : LTVModel) (periods shorter : Z)
  (params curve : list R) :
  (shorter <= periods)%Z ->
  predicted_survival self periods params = Ok curve ->
  exists curve',
    predicted_survival self shorter params = Ok curve' /\
    len curve' = Z.max 0 shorter /\
    curve' = firstn (length curve') curve.
Proof.
  intros Hp H. unfold predicted_survival, predicted_survival_of in *.
  destruct (Z.le_gt_cases shorter 0) as [H0 | H0].
  - exists []. rewrite (range_empty 0 shorter) by lia.
    repeat split. unfold len. simpl. lia.
  - pose proof (mapM_exc_length _ _ _ H) as Hl.
    rewrite (range_split 0 shorter periods) in H by lia.
    apply mapM_exc_app_Ok in H. eexists. split; [exact H|].
    rewrite length_firstn, Hl, !length_range. split.
    + unfold len. rewrite length_firstn, Hl, !length_range. lia.
    + f_equal. lia.
Qed.

Lemma predicted_survival_prefix_witness :
  exists curve',
    predicted_survival example_model 3 [1; 1] = Ok curve' /\
    len curve' = Z.max 0 3 /\
    curve' = firstn (length curve') (map (sbg_S 1 1) (seq 0 5)).
Proof.
  apply (predicted_survival_prefix example_model 5 3 [1; 1]).
  - lia.
  - exact (example_curve 5).
Defined.

Section FitFurther.

Variable minimize :
  (list R -> exc R) -> list R -> list (R * R) -> string -> exc OptimizeResult.
Variable random_rand : nat -> list R.

(** X18.  On a flat series that consists of a single count or a single [1],
    [fit] raises [IndexError] whatever the model and the minimizer:
    preprocessing drops the only element. *)
Theorem fit_single_observation (self : LTVModel) (x : R) (periods : Z) :
  1 <= x ->
  fit minimize random_rand self (Flat [x]) periods = Raise IndexError.
Proof.
  intros Hx. unfold fit. cbn [preprocess_data]. unfold preprocess_flat.
  rewrite getitem_0_cons, bind_Ok.
  destruct (Rlt_dec 1 x) as [Hgt | Hle].
  - now rewrite Rltb_true by easy.
  - now rewrite Rltb_false, Reqb_true by lra.
Qed.

(** X19.  When [fit] returns for the SBG or the BDW model with
    [periods >= 1], the keys of the dictionary are the parameter names of
    the model, ["retention_curve"] and ["loss"], and no other. *)
Theorem fit_result_keys (self : LTVModel) (method : string)
  (init : option (list R)) (data : Data) (periods : Z)
  (d : gmap string value) :
  self = SBGModel method init \/ self = BDWModel method init ->
  (1 <= periods)%Z ->
  fit minimize random_rand self data periods = Ok d ->
  dom d = list_to_set (param_names self)
          ∪ {[ "retention_curve"%string; "loss"%string ]}.
Proof.
  intros Hself Hp Hfit.
  apply fit_Ok_inv in Hfit
    as (data' & multi & res & curve & _ & _ & _ & _ & Hcurve & ->).
  destruct (predicted_survival_of_first _ _ _ _ Hp Hcurve) as [s Hs].
  rewrite !dom_insert_L.
  destruct Hself as [-> | ->]; cbn [survivor SBGModel BDWModel] in Hs.
  - apply SBG_survivor_Ok_inv in Hs as (alpha & beta & ->).
    cbn [param_names SBGModel]. unfold dict_of_zip. cbn [combine fold_left].
    rewrite !dom_insert_L, dom_empty_L. set_solver.
  - apply BDW_survivor_Ok_inv in Hs as (alpha & beta & c & ->).
    cbn [param_names BDWModel]. unfold dict_of_zip. cbn [combine fold_left].
    rewrite !dom_insert_L, dom_empty_L. set_solver.
Qed.

End FitFurther.

Lemma fit_single_observation_witness :
  fit accept_initial_guess constant_rand raising_model (Flat [733]) 52 = Raise IndexError.
Proof.
  apply (fit_single_observation accept_initial_guess constant_rand
           raising_model 733 52).
  lra.
Defined.

Lemma fit_result_keys_witness :
  dom (<["loss"%string := VFloat (- example_log_likelihood)]>
         (<["retention_curve"%string :=
              VList (1 :: map (sbg_S 1 1) (seq 0 2))]>
            (dict_of_zip ["alpha"%string; "beta"%string] [1; 1])))
  = list_to_set (param_names example_model)
    ∪ {[ "retention_curve"%string; "loss"%string ]}.
Proof.
  apply (fit_result_keys accept_initial_guess constant_rand example_model
           "nelder-mead" (Some [1; 1]) (Flat example_data) 2).
  - left. reflexivity.
  - lia.
  - exact (example_fit 2).
Defined.

(** ** The likelihood with precomputed survivors *)

(** X23.  With precomputed survivors, as [optimize] calls it,
    [log_likelihood] sums over the survivors handed in, whatever the rates of
    [data] are: [data] enters through its length and its last element only. *)
Theorem log_likelihood_precomputed_survivors (self : LTVModel)
  (params data survivors probabilities : list R) (s : R) :
  Forall (fun x => 0 < x) params ->
  data <> [] ->
  generate_probabilities self (len data) params = Ok probabilities ->
  (len survivors <= len probabilities)%Z ->
  survivor self (len data - 1) params None = Ok s ->
  log_likelihood self params data (Some survivors) =
  Ok (Sigma 0 (length survivors)
        (fun t => item survivors t * ln (item probabilities t))
      + item data (len data - 1) * ln s).
Proof.
  intros Hpos Hd Hgp Hlen Hs. unfold log_likelihood.
  rewrite any_nonpositive_false, bind_Ok, Hgp, bind_Ok, Hs, bind_Ok by easy.
  rewrite (mapM_exc_Ok _ (fun '(t, r) => r * ln (item probabilities t))).
  - rewrite bind_Ok, getitem_last, bind_Ok by easy.
    do 2 f_equal. rewrite enumerate_seq, map_map.
    apply (sum_map_seq (fun t => item survivors t * ln (item probabilities t)) 0).
  - intros [t r] Hin. apply in_combine_l, in_range in Hin.
    now rewrite getitem_nth by lia.
Qed.

Lemma log_likelihood_precomputed_survivors_witness :
  log_likelihood (SBGModel "nelder-mead" None) [1; 1] [0.8; 0.65] (Some [0.3]) =
  Ok (Sigma 0 1 (fun t => item [0.3] t * ln (item (map (sbg_p 1 1) (seq 0 2)) t))
      + item [0.8; 0.65] 1 * ln (sbg_S 1 1 1)).
Proof.
  apply (log_likelihood_precomputed_survivors (SBGModel "nelder-mead" None)
           [1; 1] [0.8; 0.65] [0.3] (map (sbg_p 1 1) (seq 0 2)) (sbg_S 1 1 1)).
  - repeat constructor; lra.
  - discriminate.
  - exact (SBG_generate_probabilities_Ok 1 1 1).
  - unfold len. simpl. lia.
  - exact (SBG_survivor_Ok 1 1 1).
Defined.
